(** * Dominoes score tracker: a shallow embedding of [App.tsx]

    The component keeps one persisted aggregate ([PersistedState]) and a
    handful of form fields.  Every handler of the component is embedded as a
    function from the component's state before the event to its state after
    it; a functional [setState (prev => ...)] is applied to the state the
    handler closed over, which is the state React hands to the updater when
    the handler runs.

    Numbers.  The fields of the aggregate are the integers the data model
    declares; they are carried as [Z] and [+], [* 2], [>=], [>] are the exact
    operations, which is what the IEEE doubles of the source compute as long
    as the values stay in the safe integer range; the properties that rest
    on the value of a sum say so ([exactTotals], [exactCounters]).  What
    [Number(text)] can return on a form field is richer and is kept apart
    ([number]).

    Strings.  A string is a [string] of the Standard Library, read as the
    UTF-8 text of a JavaScript string of well-formed Unicode.  [trim]
    strips the white space and the line terminators of ECMAScript;
    [toLowerCase], like [Number], is a built-in the handlers are given. *)

From Stdlib Require Import ZArith List Bool String Ascii Lia.
From Stdlib Require Import Decimal DecimalString DecimalZ.
From Stdlib Require DecimalPos DecimalFacts.
Import ListNotations.

Local Open Scope string_scope.
Local Open Scope Z_scope.

(** ** Data model *)

Record Round : Type := mkRound {
  id : Z;
  rawA : Z;
  rawB : Z;
  appliedA : Z;
  appliedB : Z;
  isDouble : bool
}.

Record PersistedState : Type := mkPersistedState {
  onboardingDone : bool;
  teamAName : string;
  teamBName : string;
  doubleFirstHand : bool;
  rounds : list Round;
  winsA : Z;
  winsB : Z
}.

Definition TARGET_SCORE : Z := 150.

Definition defaultState : PersistedState := {|
  onboardingDone := false;
  teamAName := "";
  teamBName := "";
  doubleFirstHand := false;
  rounds := [];
  winsA := 0;
  winsB := 0
|}.

(** The value of a JavaScript number as far as the handlers look at it:
    [Number.isInteger], [< 0] and [=== 0].  Both zeros are [Int 0]. *)
Inductive number : Type :=
| Int (z : Z)
| Frac (negative : bool)
| Infinity (negative : bool)
| NaN.

Definition Number_isInteger (n : number) : bool :=
  match n with Int _ => true | _ => false end.

Definition lt0 (n : number) : bool :=
  match n with
  | Int z => z <? 0
  | Frac negative => negative
  | Infinity negative => negative
  | NaN => false
  end.

Definition is0 (n : number) : bool :=
  match n with Int z => z =? 0 | _ => false end.

(** The integer an integer-valued number stands for; the handlers read it
    only after [Number.isInteger] has answered [true]. *)
Definition intValue (n : number) : Z :=
  match n with Int z => z | _ => 0 end.

(** The state of the [App] component: the aggregate and the [useState]
    cells of the forms. *)
Record App : Type := mkApp {
  state : PersistedState;
  teamAInput : string;
  teamBInput : string;
  doubleInput : bool;
  roundA : string;
  roundB : string;
  error : string;
  winnerBanner : string;
  settingsOpen : bool
}.


(** The [useState] setters. *)
Definition setState (f : PersistedState -> PersistedState) (app : App) : App :=
  {| state := f (state app); teamAInput := teamAInput app;
     teamBInput := teamBInput app; doubleInput := doubleInput app;
     roundA := roundA app; roundB := roundB app; error := error app;
     winnerBanner := winnerBanner app; settingsOpen := settingsOpen app |}.

Definition setTeamAInput (v : string) (app : App) : App :=
  {| state := state app; teamAInput := v;
     teamBInput := teamBInput app; doubleInput := doubleInput app;
     roundA := roundA app; roundB := roundB app; error := error app;
     winnerBanner := winnerBanner app; settingsOpen := settingsOpen app |}.

Definition setTeamBInput (v : string) (app : App) : App :=
  {| state := state app; teamAInput := teamAInput app;
     teamBInput := v; doubleInput := doubleInput app;
     roundA := roundA app; roundB := roundB app; error := error app;
     winnerBanner := winnerBanner app; settingsOpen := settingsOpen app |}.

Definition setDoubleInput (v : bool) (app : App) : App :=
  {| state := state app; teamAInput := teamAInput app;
     teamBInput := teamBInput app; doubleInput := v;
     roundA := roundA app; roundB := roundB app; error := error app;
     winnerBanner := winnerBanner app; settingsOpen := settingsOpen app |}.

Definition setRoundA (v : string) (app : App) : App :=
  {| state := state app; teamAInput := teamAInput app;
     teamBInput := teamBInput app; doubleInput := doubleInput app;
     roundA := v; roundB := roundB app; error := error app;
     winnerBanner := winnerBanner app; settingsOpen := settingsOpen app |}.

Definition setRoundB (v : string) (app : App) : App :=
  {| state := state app; teamAInput := teamAInput app;
     teamBInput := teamBInput app; doubleInput := doubleInput app;
     roundA := roundA app; roundB := v; error := error app;
     winnerBanner := winnerBanner app; settingsOpen := settingsOpen app |}.

Definition setError (v : string) (app : App) : App :=
  {| state := state app; teamAInput := teamAInput app;
     teamBInput := teamBInput app; doubleInput := doubleInput app;
     roundA := roundA app; roundB := roundB app; error := v;
     winnerBanner := winnerBanner app; settingsOpen := settingsOpen app |}.

Definition setWinnerBanner (v : string) (app : App) : App :=
  {| state := state app; teamAInput := teamAInput app;
     teamBInput := teamBInput app; doubleInput := doubleInput app;
     roundA := roundA app; roundB := roundB app; error := error app;
     winnerBanner := v; settingsOpen := settingsOpen app |}.

Definition setSettingsOpen (v : bool) (app : App) : App :=
  {| state := state app; teamAInput := teamAInput app;
     teamBInput := teamBInput app; doubleInput := doubleInput app;
     roundA := roundA app; roundB := roundB app; error := error app;
     winnerBanner := winnerBanner app; settingsOpen := v |}.

(** What [App] starts from: [useState(() => loadInitialState())] and the
    initial values of the other cells. *)
Definition initialApp (loaded : PersistedState) : App :=
  {| state := loaded; teamAInput := teamAName loaded;
     teamBInput := teamBName loaded; doubleInput := doubleFirstHand loaded;
     roundA := ""; roundB := ""; error := ""; winnerBanner := "";
     settingsOpen := false |}.

(** ** Strings: [String.prototype.trim] and [toLowerCase] *)

(** [s] without the prefix [word], when it starts with it. *)
Fixpoint dropPrefix (word s : string) : option string :=
  match word, s with
  | EmptyString, _ => Some s
  | String w word', String c s' =>
      if (w =? c)%char then dropPrefix word' s' else None
  | String _ _, EmptyString => None
  end.

(** The UTF-8 bytes of a code point below U+10000. *)
Definition utf8 (cp : N) : string :=
  if (cp <? 128)%N then String (ascii_of_N cp) EmptyString
  else if (cp <? 2048)%N then
    String (ascii_of_N (192 + cp / 64))
      (String (ascii_of_N (128 + cp mod 64)) EmptyString)
  else
    String (ascii_of_N (224 + cp / 4096))
      (String (ascii_of_N (128 + (cp / 64) mod 64))
         (String (ascii_of_N (128 + cp mod 64)) EmptyString)).

(** The code points [trim] strips, WhiteSpace and LineTerminator of
    ECMAScript: U+0009 to U+000D, U+0020, U+00A0, U+1680, U+2000 to U+200A,
    U+2028, U+2029, U+202F, U+205F, U+3000 and U+FEFF. *)
Definition whiteSpaceCodePoints : list N :=
  [9; 10; 11; 12; 13; 32; 160; 5760;
   8192; 8193; 8194; 8195; 8196; 8197; 8198; 8199; 8200; 8201; 8202;
   8232; 8233; 8239; 8287; 12288; 65279]%N.

Definition whiteSpaces : list string := map utf8 whiteSpaceCodePoints.

Fixpoint stripAny (words : list string) (s : string) : option string :=
  match words with
  | [] => None
  | w :: others =>
      match dropPrefix w s with
      | Some rest => Some rest
      | None => stripAny others s
      end
  end.

(** [s] without its first character, when that is white space. *)
Definition stripWhiteSpace (s : string) : option string := stripAny whiteSpaces s.

(** White space is stripped from the start as long as there is some;
    [fuel] bounds the number of characters stripped. *)
Fixpoint trimStartFrom (fuel : nat) (s : string) : string :=
  match fuel with
  | O => s
  | S fuel =>
      match stripWhiteSpace s with
      | Some rest => trimStartFrom fuel rest
      | None => s
      end
  end.

Definition trimStart (s : string) : string := trimStartFrom (String.length s) s.

(** [s] up to the point from which it is white space only. *)
Fixpoint trimEnd (s : string) : string :=
  match s with
  | EmptyString => EmptyString
  | String c rest =>
      if (trimStart s =? "")%string then EmptyString else String c (trimEnd rest)
  end.

Definition trim (s : string) : string := trimEnd (trimStart s).

(** What [toLowerCase] does to a text of ASCII characters: the letters [A]
    to [Z] become [a] to [z].  The handlers take [toLowerCase] itself as a
    built-in of the platform (section [Handlers]). *)
Definition isUpper (c : ascii) : bool :=
  let n := nat_of_ascii c in (65 <=? n)%nat && (n <=? 90)%nat.

Definition lowerChar (c : ascii) : ascii :=
  if isUpper c then ascii_of_nat (nat_of_ascii c + 32) else c.

Fixpoint asciiLowerCase (s : string) : string :=
  match s with
  | EmptyString => EmptyString
  | String c rest => String (lowerChar c) (asciiLowerCase rest)
  end.

(** ** Scoring *)

Record Totals : Type := mkTotals { a : Z; b : Z }.

(** [rounds.reduce((acc, round) => ..., { a: 0, b: 0 })], the computation of
    both [totals] and [nextTotals]. *)
Definition sumRounds (rs : list Round) : Totals :=
  fold_left
    (fun acc round =>
       {| a := a acc + appliedA round; b := b acc + appliedB round |})
    rs {| a := 0; b := 0 |}.

Definition totals (app : App) : Totals := sumRounds (rounds (state app)).

Section Handlers.

(** [Number] applied to the text of a form field and [toLowerCase] applied
    to a name: built-ins of the platform, left open. *)
Variable Number : string -> number.
Variable toLowerCase : string -> string.

(** ** Configuration *)

Definition ERR_NAMES_MISSING : string := "Escribe el nombre de ambos equipos.".
Definition ERR_NAMES_EQUAL : string :=
  "Los nombres de los equipos deben ser distintos.".

Definition saveOnboarding (app : App) : App :=
  let a := trim (teamAInput app) in
  let b := trim (teamBInput app) in
  if (a =? "")%string || (b =? "")%string then
    setError ERR_NAMES_MISSING app
  else if (toLowerCase a =? toLowerCase b)%string then
    setError ERR_NAMES_EQUAL app
  else
    setError ""
      (setState
         (fun prev =>
            {| onboardingDone := true;
               teamAName := a;
               teamBName := b;
               doubleFirstHand := doubleInput app;
               rounds := if (0 <? List.length (rounds prev))%nat
                         then rounds prev else [];
               winsA := winsA prev;
               winsB := winsB prev |})
         app).

Definition saveSettings (app : App) : App :=
  let a := trim (teamAInput app) in
  let b := trim (teamBInput app) in
  if (a =? "")%string || (b =? "")%string then
    setError ERR_NAMES_MISSING app
  else if (toLowerCase a =? toLowerCase b)%string then
    setError ERR_NAMES_EQUAL app
  else
    setSettingsOpen false
      (setError ""
         (setState
            (fun prev =>
               {| onboardingDone := onboardingDone prev;
                  teamAName := a;
                  teamBName := b;
                  doubleFirstHand := doubleInput app;
                  rounds := rounds prev;
                  winsA := winsA prev;
                  winsB := winsB prev |})
            app)).

(** ** Rounds *)

Definition ERR_NOT_INTEGER : string :=
  "Ingresa números enteros para ambos puntajes.".
Definition ERR_NO_POINTS : string := "Al menos un equipo debe tener puntos.".
Definition WINNER_SUFFIX : string := " ganó la partida! 🏆".

(** [state.doubleFirstHand && state.rounds.length === 0] *)
Definition isDoubleNow (st : PersistedState) : bool :=
  doubleFirstHand st && (List.length (rounds st) =? 0)%nat.

(** The object literal [nextRound]; [now] is what [Date.now()] returned and
    [rawA], [rawB] are the validated integers. *)
Definition nextRound (st : PersistedState) (now rawA rawB : Z) : Round :=
  let isDouble := isDoubleNow st in
  {| id := now;
     rawA := rawA;
     rawB := rawB;
     appliedA := if isDouble then rawA * 2 else rawA;
     appliedB := if isDouble then rawB * 2 else rawB;
     isDouble := isDouble |}.

Definition aWon (t : Totals) : bool := (a t >=? TARGET_SCORE) && (a t >? b t).
Definition bWon (t : Totals) : bool := (b t >=? TARGET_SCORE) && (b t >? a t).

(** [roundA === '' ? 0 : Number(roundA)] *)
Definition fieldValue (field : string) : number :=
  if (field =? "")%string then Int 0 else Number field.

Definition addRound (now : Z) (app : App) : App :=
  let app := setError "" app in
  let st := state app in
  let rawA := fieldValue (roundA app) in
  let rawB := fieldValue (roundB app) in
  if negb (Number_isInteger rawA) || negb (Number_isInteger rawB)
     || lt0 rawA || lt0 rawB
  then setError ERR_NOT_INTEGER app
  else if is0 rawA && is0 rawB
  then setError ERR_NO_POINTS app
  else
    let next := nextRound st now (intValue rawA) (intValue rawB) in
    let nextRounds := (rounds st ++ [next])%list in
    let nextTotals := sumRounds nextRounds in
    let aWon := aWon nextTotals in
    let bWon := bWon nextTotals in
    if aWon || bWon then
      let winnerName := if aWon then teamAName st else teamBName st in
      setRoundB ""
        (setRoundA ""
           (setWinnerBanner (winnerName ++ WINNER_SUFFIX)%string
              (setState
                 (fun prev =>
                    {| onboardingDone := onboardingDone prev;
                       teamAName := teamAName prev;
                       teamBName := teamBName prev;
                       doubleFirstHand := doubleFirstHand prev;
                       rounds := [];
                       winsA := if aWon then winsA prev + 1 else winsA prev;
                       winsB := if bWon then winsB prev + 1 else winsB prev |})
                 app)))
    else
      setRoundB ""
        (setRoundA ""
           (setState
              (fun prev =>
                 {| onboardingDone := onboardingDone prev;
                    teamAName := teamAName prev;
                    teamBName := teamBName prev;
                    doubleFirstHand := doubleFirstHand prev;
                    rounds := nextRounds;
                    winsA := winsA prev;
                    winsB := winsB prev |})
              app)).

(** [prev.rounds.slice(0, -1)]: the elements before index
    [max (length - 1) 0]. *)
Definition undoRound (app : App) : App :=
  setState
    (fun prev =>
       {| onboardingDone := onboardingDone prev;
          teamAName := teamAName prev;
          teamBName := teamBName prev;
          doubleFirstHand := doubleFirstHand prev;
          rounds := firstn (List.length (rounds prev) - 1) (rounds prev);
          winsA := winsA prev;
          winsB := winsB prev |})
    app.

Definition resetCurrentGame (app : App) : App :=
  setWinnerBanner ""
    (setState
       (fun prev =>
          {| onboardingDone := onboardingDone prev;
             teamAName := teamAName prev;
             teamBName := teamBName prev;
             doubleFirstHand := doubleFirstHand prev;
             rounds := [];
             winsA := winsA prev;
             winsB := winsB prev |})
       app).

(** What the user can do to the component, file import apart.  [AddRound]
    carries the reading of the clock taken by the handler. *)
Inductive Event : Type :=
| ChangeTeamA (text : string)
| ChangeTeamB (text : string)
| ChangeDouble (checked : bool)
| ChangeRoundA (text : string)
| ChangeRoundB (text : string)
| ToggleSettings (open : bool)
| SaveOnboarding
| SaveSettings
| AddRound (now : Z)
| UndoRound
| ResetCurrentGame.

Definition handle (app : App) (ev : Event) : App :=
  match ev with
  | ChangeTeamA text => setTeamAInput text app
  | ChangeTeamB text => setTeamBInput text app
  | ChangeDouble checked => setDoubleInput checked app
  | ChangeRoundA text => setRoundA text app
  | ChangeRoundB text => setRoundB text app
  | ToggleSettings open => setSettingsOpen open app
  | SaveOnboarding => saveOnboarding app
  | SaveSettings => saveSettings app
  | AddRound now => addRound now app
  | UndoRound => undoRound app
  | ResetCurrentGame => resetCurrentGame app
  end.

Definition run (app : App) (evs : list Event) : App :=
  fold_left handle evs app.

(** The readings of the clock taken along a run, oldest first. *)
Fixpoint clockReadings (evs : list Event) : list Z :=
  match evs with
  | [] => []
  | AddRound now :: rest => now :: clockReadings rest
  | _ :: rest => clockReadings rest
  end.

End Handlers.

(** ** Documents: what [JSON.parse] returns and [JSON.stringify] prints *)

Set Warnings "-register-all".

Inductive value : Type :=
| JNull
| JBool (b : bool)
| JNum (n : number)
| JStr (s : string)
| JArr (items : list value)
| JObj (props : list (string * value)).

(** [typeof]; [None] is [undefined], what reading a property that is
    not there gives. *)
Definition typeof (v : option value) : string :=
  match v with
  | None => "undefined"
  | Some JNull => "object"
  | Some (JBool _) => "boolean"
  | Some (JNum _) => "number"
  | Some (JStr _) => "string"
  | Some (JArr _) => "object"
  | Some (JObj _) => "object"
  end.

(** [!value] *)
Definition falsy (v : value) : bool :=
  match v with
  | JNull => true
  | JBool b => negb b
  | JNum (Int z) => z =? 0
  | JNum NaN => true
  | JNum _ => false
  | JStr s => (s =? "")%string
  | JArr _ => false
  | JObj _ => false
  end.

Fixpoint lookup (key : string) (props : list (string * value)) : option value :=
  match props with
  | [] => None
  | (k, v) :: rest => if (k =? key)%string then Some v else lookup key rest
  end.

(** [v.key] for the property names the component reads: an own property of
    a parsed object; arrays and primitives have none of them. *)
Definition prop (v : value) (key : string) : option value :=
  match v with
  | JObj props => lookup key props
  | _ => None
  end.

Definition Array_isArray (v : option value) : bool :=
  match v with Some (JArr _) => true | _ => false end.

Definition isValidState (value : value) : bool :=
  if falsy value || negb (typeof (Some value) =? "object")%string then false
  else
    let v := value in
    (typeof (prop v "onboardingDone") =? "boolean")%string
    && (typeof (prop v "teamAName") =? "string")%string
    && (typeof (prop v "teamBName") =? "string")%string
    && (typeof (prop v "doubleFirstHand") =? "boolean")%string
    && Array_isArray (prop v "rounds")
    && (typeof (prop v "winsA") =? "number")%string
    && (typeof (prop v "winsB") =? "number")%string.

(** The object a [Round] is, properties in the order of the literal that
    creates it. *)
Definition roundToValue (r : Round) : value :=
  JObj [("id", JNum (Int (id r)));
        ("rawA", JNum (Int (rawA r)));
        ("rawB", JNum (Int (rawB r)));
        ("appliedA", JNum (Int (appliedA r)));
        ("appliedB", JNum (Int (appliedB r)));
        ("isDouble", JBool (isDouble r))].

(** The object the aggregate is; the spreads of the handlers keep the
    property order of [defaultState]. *)
Definition toValue (s : PersistedState) : value :=
  JObj [("onboardingDone", JBool (onboardingDone s));
        ("teamAName", JStr (teamAName s));
        ("teamBName", JStr (teamBName s));
        ("doubleFirstHand", JBool (doubleFirstHand s));
        ("rounds", JArr (map roundToValue (rounds s)));
        ("winsA", JNum (Int (winsA s)));
        ("winsB", JNum (Int (winsB s)))].

Definition asInt (v : option value) : option Z :=
  match v with Some (JNum (Int z)) => Some z | _ => None end.

Definition asBool (v : option value) : option bool :=
  match v with Some (JBool b) => Some b | _ => None end.

Definition asString (v : option value) : option string :=
  match v with Some (JStr s) => Some s | _ => None end.

Definition bind {A B : Type} (x : option A) (f : A -> option B) : option B :=
  match x with Some y => f y | None => None end.

Notation "x <- e ;; k" := (bind e (fun x => k))
  (at level 61, e at next level, right associativity).

(** A parsed value read at type [Round]: defined when the value has the six
    properties with integer and boolean contents. *)
Definition asRound (v : value) : option Round :=
  id <- asInt (prop v "id") ;;
  rawA <- asInt (prop v "rawA") ;;
  rawB <- asInt (prop v "rawB") ;;
  appliedA <- asInt (prop v "appliedA") ;;
  appliedB <- asInt (prop v "appliedB") ;;
  isDouble <- asBool (prop v "isDouble") ;;
  Some (mkRound id rawA rawB appliedA appliedB isDouble).

Fixpoint asRounds (items : list value) : option (list Round) :=
  match items with
  | [] => Some []
  | item :: rest =>
      r <- asRound item ;;
      rs <- asRounds rest ;;
      Some (r :: rs)
  end.

(** A parsed value read at type [PersistedState], which is what the cast
    behind the type guard of [isValidState] takes it for.  [None]: the value
    is no [PersistedState] of the data model. *)
Definition asPersistedState (v : value) : option PersistedState :=
  onboardingDone <- asBool (prop v "onboardingDone") ;;
  teamAName <- asString (prop v "teamAName") ;;
  teamBName <- asString (prop v "teamBName") ;;
  doubleFirstHand <- asBool (prop v "doubleFirstHand") ;;
  rounds <- match prop v "rounds" with
            | Some (JArr items) => asRounds items
            | _ => None
            end ;;
  winsA <- asInt (prop v "winsA") ;;
  winsB <- asInt (prop v "winsB") ;;
  Some (mkPersistedState onboardingDone teamAName teamBName doubleFirstHand
          rounds winsA winsB).

(** The structural shape check as section 4.4 of the specification words
    it: every required field present with the expected primitive type, and
    the ledger a sequence of round-shaped records. *)
Definition spec_roundShaped (v : value) : bool :=
  match v with
  | JObj _ =>
      (typeof (prop v "id") =? "number")%string
      && (typeof (prop v "rawA") =? "number")%string
      && (typeof (prop v "rawB") =? "number")%string
      && (typeof (prop v "appliedA") =? "number")%string
      && (typeof (prop v "appliedB") =? "number")%string
      && (typeof (prop v "isDouble") =? "boolean")%string
  | _ => false
  end.

Definition spec_shapeCheck (v : value) : bool :=
  match v with
  | JObj _ =>
      (typeof (prop v "onboardingDone") =? "boolean")%string
      && (typeof (prop v "teamAName") =? "string")%string
      && (typeof (prop v "teamBName") =? "string")%string
      && (typeof (prop v "doubleFirstHand") =? "boolean")%string
      && match prop v "rounds" with
         | Some (JArr items) => forallb spec_roundShaped items
         | _ => false
         end
      && (typeof (prop v "winsA") =? "number")%string
      && (typeof (prop v "winsB") =? "number")%string
  | _ => false
  end.

Definition ERR_BACKUP_FORMAT : string := "El formato del respaldo no es válido.".
Definition ERR_BACKUP_UNREADABLE : string :=
  "No se pudo leer el archivo de respaldo.".

Section Store.

(** [JSON.parse] ([None] when it throws) and [JSON.stringify] with its
    [space] argument: built-ins of the platform, left open. *)
Variable JSON_parse : string -> option value.
Variable JSON_stringify : value -> nat -> string.

(** [hasWindow] is [typeof window !== 'undefined'] and [item] is what
    [localStorage.getItem(STORAGE_KEY)] returns.  The result is [None]
    when a value passes [isValidState] without being a [PersistedState]. *)
Definition loadInitialState (hasWindow : bool) (item : option string)
  : option PersistedState :=
  if negb hasWindow then Some defaultState
  else
    match item with
    | None => Some defaultState
    | Some raw =>
        if (raw =? "")%string then Some defaultState
        else
          match JSON_parse raw with
          | Some parsed =>
              if isValidState parsed then asPersistedState parsed
              else Some defaultState
          | None => Some defaultState
          end
    end.

(** The effect on [state]: what is written to the storage slot. *)
Definition persisted (app : App) : string :=
  JSON_stringify (toValue (state app)) 0.

(** The text of the downloaded backup. *)
Definition exportData (app : App) : string :=
  JSON_stringify (toValue (state app)) 2.

(** [file] is the text of the selected file, if one was selected.  The
    result is [None] when the document passes [isValidState] without
    being a [PersistedState]. *)
Definition importData (file : option string) (app : App) : option App :=
  match file with
  | None => Some app
  | Some text =>
      match JSON_parse text with
      | Some parsed =>
          if negb (isValidState parsed) then
            Some (setError ERR_BACKUP_FORMAT app)
          else
            parsedState <- asPersistedState parsed ;;
            Some (setWinnerBanner ""
                    (setError ""
                       (setDoubleInput (doubleFirstHand parsedState)
                          (setTeamBInput (teamBName parsedState)
                             (setTeamAInput (teamAName parsedState)
                                (setState (fun _ => parsedState) app))))))
      | None => Some (setError ERR_BACKUP_UNREADABLE app)
      end
  end.

End Store.

(** ** A JSON printer and reader to run the store on

    An instance of the two built-ins for documents whose numbers are
    integers: [printJSON] lays a value out as [JSON.stringify(v, null, space)]
    does, [readJSON] reads JSON text with integer number literals and, of
    the escapes [\uXXXX], those of ASCII characters. *)

Definition newline : string := String (ascii_of_nat 10) EmptyString.
Definition dquote : ascii := ascii_of_nat 34.

Fixpoint spaces (n : nat) : string :=
  match n with O => EmptyString | S m => String " " (spaces m) end.

Definition hexDigit (n : nat) : ascii :=
  if (n <? 10)%nat then ascii_of_nat (48 + n) else ascii_of_nat (87 + n).

Definition escapeChar (c : ascii) : string :=
  let n := nat_of_ascii c in
  if (n =? 34)%nat then String "\" (String dquote EmptyString)
  else if (n =? 92)%nat then "\\"
  else if (n =? 8)%nat then "\b"
  else if (n =? 9)%nat then "\t"
  else if (n =? 10)%nat then "\n"
  else if (n =? 12)%nat then "\f"
  else if (n =? 13)%nat then "\r"
  else if (n <? 32)%nat then
    "\u00" ++ String (hexDigit (n / 16)) (String (hexDigit (n mod 16)) EmptyString)
  else String c EmptyString.

Fixpoint escape (s : string) : string :=
  match s with
  | EmptyString => EmptyString
  | String c rest => escapeChar c ++ escape rest
  end.

Definition quote (s : string) : string :=
  String dquote (escape s ++ String dquote EmptyString).

Definition printNumber (n : number) : string :=
  match n with
  | Int z => NilZero.string_of_int (Z.to_int z)
  | _ => "null"
  end.

(** The texts of the elements between the brackets [opener] and [closer]:
    one per line at the indentation [inner] when there is a [gap], one after
    the other when there is none. *)
Fixpoint printMore (gap indent inner closer : string) (texts : list string)
  : string :=
  match texts with
  | [] =>
      (if (gap =? "")%string then "" else newline ++ indent) ++ closer
  | text :: rest =>
      "," ++ (if (gap =? "")%string then "" else newline ++ inner)
      ++ text ++ printMore gap indent inner closer rest
  end.

Definition printList (gap indent opener closer : string) (texts : list string)
  : string :=
  match texts with
  | [] => opener ++ closer
  | text :: rest =>
      opener
      ++ (if (gap =? "")%string then "" else newline ++ indent ++ gap)
      ++ text ++ printMore gap indent (indent ++ gap) closer rest
  end.

Definition printProp (gap : string) (key text : string) : string :=
  quote key ++ (if (gap =? "")%string then ":" else ": ") ++ text.

(** [indent] is the indentation of the line the value starts on and [gap]
    what one level adds to it. *)
Fixpoint printValue (gap indent : string) (v : value) : string :=
  match v with
  | JNull => "null"
  | JBool true => "true"
  | JBool false => "false"
  | JNum n => printNumber n
  | JStr s => quote s
  | JArr items =>
      printList gap indent "[" "]"
        (map (printValue gap (indent ++ gap)) items)
  | JObj props =>
      printList gap indent "{" "}"
        (map (fun kv =>
                printProp gap (fst kv) (printValue gap (indent ++ gap) (snd kv)))
           props)
  end.

Definition printJSON (v : value) (space : nat) : string :=
  printValue (spaces space) "" v.

Definition isJsonSpace (c : ascii) : bool :=
  let n := nat_of_ascii c in
  (n =? 32)%nat || (n =? 9)%nat || (n =? 10)%nat || (n =? 13)%nat.

Fixpoint skipSpace (s : string) : string :=
  match s with
  | String c rest => if isJsonSpace c then skipSpace rest else s
  | EmptyString => EmptyString
  end.

Definition isDigit (c : ascii) : bool :=
  let n := nat_of_ascii c in (48 <=? n)%nat && (n <=? 57)%nat.

(** The longest prefix of digits, and what follows it. *)
Fixpoint spanDigits (s : string) : string * string :=
  match s with
  | String c rest =>
      if isDigit c then
        let (digits, after) := spanDigits rest in (String c digits, after)
      else (EmptyString, s)
  | EmptyString => (EmptyString, EmptyString)
  end.

Definition hexValue (c : ascii) : option nat :=
  let n := nat_of_ascii c in
  if (48 <=? n)%nat && (n <=? 57)%nat then Some (n - 48)%nat
  else if (97 <=? n)%nat && (n <=? 102)%nat then Some (n - 87)%nat
  else if (65 <=? n)%nat && (n <=? 70)%nat then Some (n - 55)%nat
  else None.

(** The characters of a string literal after its opening quote, and what
    follows its closing quote. *)
Fixpoint readChars (s : string) : option (string * string) :=
  match s with
  | EmptyString => None
  | String c rest =>
      let n := nat_of_ascii c in
      if (n =? 34)%nat then Some (EmptyString, rest)
      else if (n <? 32)%nat then None
      else if (n =? 92)%nat then
        match rest with
        | String e rest' =>
            let plain (c : ascii) :=
              r <- readChars rest' ;; Some (String c (fst r), snd r) in
            let m := nat_of_ascii e in
            if (m =? 34)%nat then plain e
            else if (m =? 92)%nat then plain e
            else if (m =? 47)%nat then plain e
            else if (m =? 98)%nat then plain (ascii_of_nat 8)
            else if (m =? 116)%nat then plain (ascii_of_nat 9)
            else if (m =? 110)%nat then plain (ascii_of_nat 10)
            else if (m =? 102)%nat then plain (ascii_of_nat 12)
            else if (m =? 114)%nat then plain (ascii_of_nat 13)
            else if (m =? 117)%nat then
              match rest' with
              | String h1 (String h2 (String h3 (String h4 rest''))) =>
                  d1 <- hexValue h1 ;; d2 <- hexValue h2 ;;
                  d3 <- hexValue h3 ;; d4 <- hexValue h4 ;;
                  if ((d1 =? 0) && (d2 =? 0) && (d3 <? 8))%nat then
                    r <- readChars rest'' ;;
                    Some (String (ascii_of_nat (16 * d3 + d4)) (fst r), snd r)
                  else None
              | _ => None
              end
            else None
        | EmptyString => None
        end
      else r <- readChars rest ;; Some (String c (fst r), snd r)
  end.

Definition literal (word : string) (v : value) (s : string)
  : option (value * string) :=
  rest <- dropPrefix word s ;; Some (v, rest).

Definition leadingZero (digits : string) : bool :=
  match digits with
  | String c (String _ _) => (c =? "0")%char
  | _ => false
  end.

Definition readNumber (s : string) : option (value * string) :=
  let signed :=
    match s with
    | String c rest => if (c =? "-")%char then ("-", rest) else ("", s)
    | EmptyString => ("", s)
    end in
  let (digits, after) := spanDigits (snd signed) in
  if leadingZero digits then None
  else
    d <- NilZero.int_of_string (fst signed ++ digits) ;;
    Some (JNum (Int (Z.of_int d)), after).

Fixpoint readValue (fuel : nat) (s : string) {struct fuel}
  : option (value * string) :=
  match fuel with
  | O => None
  | S fuel =>
      match skipSpace s with
      | EmptyString => None
      | String c rest =>
          if (c =? "n")%char then literal "null" JNull (String c rest)
          else if (c =? "t")%char then literal "true" (JBool true) (String c rest)
          else if (c =? "f")%char then literal "false" (JBool false) (String c rest)
          else if (c =? dquote)%char then
            r <- readChars rest ;; Some (JStr (fst r), snd r)
          else if (c =? "[")%char then
            match skipSpace rest with
            | EmptyString => None
            | String c' after =>
                if (c' =? "]")%char then Some (JArr [], after)
                else r <- readItems fuel rest ;; Some (JArr (fst r), snd r)
            end
          else if (c =? "{")%char then
            match skipSpace rest with
            | EmptyString => None
            | String c' after =>
                if (c' =? "}")%char then Some (JObj [], after)
                else r <- readProps fuel rest ;; Some (JObj (fst r), snd r)
            end
          else readNumber (String c rest)
      end
  end

with readItems (fuel : nat) (s : string) {struct fuel}
  : option (list value * string) :=
  match fuel with
  | O => None
  | S fuel =>
      item <- readValue fuel s ;;
      match skipSpace (snd item) with
      | EmptyString => None
      | String c rest =>
          if (c =? ",")%char then
            r <- readItems fuel rest ;; Some (fst item :: fst r, snd r)
          else if (c =? "]")%char then Some ([fst item], rest)
          else None
      end
  end

with readProps (fuel : nat) (s : string) {struct fuel}
  : option (list (string * value) * string) :=
  match fuel with
  | O => None
  | S fuel =>
      match skipSpace s with
      | EmptyString => None
      | String q rest =>
          if (q =? dquote)%char then
            key <- readChars rest ;;
            match skipSpace (snd key) with
            | EmptyString => None
            | String c rest =>
                if (c =? ":")%char then
                  item <- readValue fuel rest ;;
                  match skipSpace (snd item) with
                  | EmptyString => None
                  | String c rest =>
                      if (c =? ",")%char then
                        r <- readProps fuel rest ;;
                        Some ((fst key, fst item) :: fst r, snd r)
                      else if (c =? "}")%char
                      then Some ([(fst key, fst item)], rest)
                      else None
                  end
                else None
            end
          else None
      end
  end.

(** [None] when the text is not one JSON value, as [JSON.parse] throws. *)
Definition readJSON (s : string) : option value :=
  r <- readValue (S (String.length s)) s ;;
  match skipSpace (snd r) with
  | EmptyString => Some (fst r)
  | String _ _ => None
  end.

(** [Number] on the empty text and on decimal integer literals, an instance
    to run the handlers on; any other text is taken for [NaN]. *)
Definition numberOfLiteral (text : string) : number :=
  if (text =? "")%string then Int 0
  else
    match NilZero.int_of_string text with
    | Some d => Int (Z.of_int d)
    | None => NaN
    end.

(** ** What the correctness of the reader is stated with *)

(** Indentation: a string of spaces. *)
Fixpoint allSpaces (s : string) : Prop :=
  match s with
  | EmptyString => True
  | String c rest => c = " "%char /\ allSpaces rest
  end.

(** What may follow a number literal: anything but a digit. *)
Definition noDigitAhead (s : string) : Prop :=
  match s with
  | EmptyString => True
  | String c _ => isDigit c = false
  end.

(** A string of digits. *)
Fixpoint allDigits (s : string) : Prop :=
  match s with
  | EmptyString => True
  | String c rest => isDigit c = true /\ allDigits rest
  end.

(** The characters a number literal starts with. *)
Definition numberStart (c : ascii) : bool := isDigit c || (c =? "-")%char.

(** A value all of whose numbers are integers. *)
Fixpoint integral (v : value) : Prop :=
  match v with
  | JNum (Int _) => True
  | JNum _ => False
  | JArr items => fold_right (fun item acc => integral item /\ acc) True items
  | JObj props => fold_right (fun kv acc => integral (snd kv) /\ acc) True props
  | _ => True
  end.

(** The nodes of a value, an upper bound of the fuel that reading it takes. *)
Fixpoint size (v : value) : nat :=
  match v with
  | JArr items => S (fold_right (fun item acc => S (size item) + acc)%nat O items)
  | JObj props => S (fold_right (fun kv acc => S (size (snd kv)) + acc)%nat O props)
  | _ => 1
  end.

(** Induction on values, with the hypothesis on every element of an array
    and on every property of an object. *)
Section ValueInduction.

Variable P : value -> Prop.
Hypothesis P_null : P JNull.
Hypothesis P_bool : forall b, P (JBool b).
Hypothesis P_num : forall n, P (JNum n).
Hypothesis P_str : forall s, P (JStr s).
Hypothesis P_arr : forall items, Forall P items -> P (JArr items).
Hypothesis P_obj :
  forall props, Forall (fun kv => P (snd kv)) props -> P (JObj props).

Fixpoint value_induction (v : value) : P v :=
  match v with
  | JNull => P_null
  | JBool b => P_bool b
  | JNum n => P_num n
  | JStr s => P_str s
  | JArr items =>
      P_arr items
        ((fix all (l : list value) : Forall P l :=
            match l with
            | [] => Forall_nil P
            | x :: r => Forall_cons x (value_induction x) (all r)
            end) items)
  | JObj props =>
      P_obj props
        ((fix all (l : list (string * value))
            : Forall (fun kv => P (snd kv)) l :=
            match l with
            | [] => Forall_nil _
            | kv :: r => Forall_cons kv (value_induction (snd kv)) (all r)
            end) props)
  end.

End ValueInduction.

(** The characters a printed value starts with. *)
Definition valueStart (c : ascii) : bool :=
  (c =? "n")%char || (c =? "t")%char || (c =? "f")%char || (c =? dquote)%char
  || (c =? "[")%char || (c =? "{")%char || numberStart c.

(** A text whose first character starts a value: it is no white space and
    closes no array or object. *)
Definition startsValue (s : string) : Prop :=
  match s with
  | EmptyString => False
  | String c _ => valueStart c = true
  end.

(** The reader, given the text of [v] followed by [rest], returns [v] and
    [rest]. *)
Definition readsBack (v : value) : Prop :=
  forall gap indent fuel rest,
    allSpaces gap -> allSpaces indent -> integral v ->
    (size v < fuel)%nat -> noDigitAhead rest ->
    readValue fuel (printValue gap indent v ++ rest) = Some (v, rest).

(** ** The notions the properties are stated with *)

(** The sum of [appliedA], and of [appliedB], across a ledger. *)
Definition totalA (rs : list Round) : Z := fold_right Z.add 0 (map appliedA rs).
Definition totalB (rs : list Round) : Z := fold_right Z.add 0 (map appliedB rs).


(** The round form of [app] holds a validated input: the two fields read as
    the non-negative integers [x] and [y], not both zero. *)
Definition submits (Number : string -> number) (app : App) (x y : Z) : Prop :=
  fieldValue Number (roundA app) = Int x
  /\ fieldValue Number (roundB app) = Int y
  /\ 0 <= x /\ 0 <= y /\ (x <> 0 \/ y <> 0).

(** The three failures, as the component reports them in [error]. *)
Definition InvalidRound (app : App) : Prop :=
  error app = ERR_NOT_INTEGER \/ error app = ERR_NO_POINTS.

Definition InvalidConfig (app : App) : Prop :=
  error app = ERR_NAMES_MISSING \/ error app = ERR_NAMES_EQUAL.

Definition InvalidBackup (app : App) : Prop :=
  error app = ERR_BACKUP_FORMAT \/ error app = ERR_BACKUP_UNREADABLE.

(** A team is declared the winner of the match that [before] was playing:
    its counter goes up by one and the banner carries its name. *)
Definition declaredWinnerA (before after : App) : Prop :=
  winsA (state after) = winsA (state before) + 1
  /\ winnerBanner after = (teamAName (state before) ++ WINNER_SUFFIX)%string.

Definition declaredWinnerB (before after : App) : Prop :=
  winsB (state after) = winsB (state before) + 1
  /\ winnerBanner after = (teamBName (state before) ++ WINNER_SUFFIX)%string.

(** A white space character, as the text of it. *)
Definition whiteSpace (w : string) : Prop := In w whiteSpaces.

(** A string of white space characters only. *)
Inductive onlyWhiteSpace : string -> Prop :=
| onlyWhiteSpace_nil : onlyWhiteSpace EmptyString
| onlyWhiteSpace_cons (w s : string) :
    whiteSpace w -> onlyWhiteSpace s -> onlyWhiteSpace (w ++ s).

(** A string that neither starts nor ends with white space. *)
Definition trimmed (n : string) : Prop :=
  forall w rest, whiteSpace w -> n <> (w ++ rest)%string /\ n <> (rest ++ w)%string.

(** [n] is [s] after trimming white space: [s] is [n] between two runs of
    white space, and [n] has none at either end. *)
Definition trimmedOf (s n : string) : Prop :=
  (exists l r, s = (l ++ n ++ r)%string /\ onlyWhiteSpace l /\ onlyWhiteSpace r)
  /\ trimmed n.

(** A text of ASCII characters. *)
Fixpoint isAscii (s : string) : bool :=
  match s with
  | EmptyString => true
  | String c rest => (nat_of_ascii c <? 128)%nat && isAscii rest
  end.

(** What is known of the built-in [toLowerCase] on a text of ASCII
    characters. *)
Definition lowersAscii (toLowerCase : string -> string) : Prop :=
  forall s, isAscii s = true -> toLowerCase s = asciiLowerCase s.

(** Two ASCII characters that are the same letter, whatever their case. *)
Definition sameLetter (c d : ascii) : Prop :=
  c = d
  \/ (isUpper c = true /\ d = lowerChar c)
  \/ (isUpper d = true /\ c = lowerChar d).

(** Two ASCII names equal ignoring case: the same letters, position by
    position. *)
Fixpoint equalIgnoringCase (s t : string) : Prop :=
  match s, t with
  | EmptyString, EmptyString => True
  | String c s', String d t' => sameLetter c d /\ equalIgnoringCase s' t'
  | _, _ => False
  end.

(** What both configuration handlers owe, [a] and [b] being the two names
    after trimming: rejection exactly on an empty [a] or [b] or on two names
    with the same lower case, no change of the aggregate on rejection, [a],
    [b] and the rule stored otherwise, with the ledger and the win counters
    kept. *)
Definition configContract (toLowerCase : string -> string)
    (save : App -> App) (app : App) (a b : string) : Prop :=
  let after := save app in
  (InvalidConfig after
     <-> (a = EmptyString \/ b = EmptyString \/ toLowerCase a = toLowerCase b))
  /\ (InvalidConfig after -> state after = state app)
  /\ (~ InvalidConfig after ->
      error after = EmptyString
      /\ teamAName (state after) = a
      /\ teamBName (state after) = b
      /\ doubleFirstHand (state after) = doubleInput app
      /\ rounds (state after) = rounds (state app)
      /\ winsA (state after) = winsA (state app)
      /\ winsB (state after) = winsB (state app)).

(** [Number.MAX_SAFE_INTEGER]: up to it the integers are doubles, and the
    sum of two of them that stays below it is the sum the doubles give. *)
Definition MAX_SAFE_INTEGER : Z := 2 ^ 53 - 1.

Definition isSafeInteger (z : Z) : bool :=
  (- MAX_SAFE_INTEGER <=? z) && (z <=? MAX_SAFE_INTEGER).

(** The reduction of [sumRounds] from [acc] stays in the safe integers:
    the scores it adds and every total it goes through. *)
Fixpoint exactFrom (acc : Totals) (rs : list Round) : bool :=
  isSafeInteger (a acc) && isSafeInteger (b acc)
  && match rs with
     | [] => true
     | round :: rest =>
         isSafeInteger (appliedA round) && isSafeInteger (appliedB round)
         && exactFrom {| a := a acc + appliedA round;
                         b := b acc + appliedB round |} rest
     end.

(** The totals of the ledger [rs] are computed exactly. *)
Definition exactTotals (rs : list Round) : Prop :=
  exactFrom {| a := 0; b := 0 |} rs = true.

(** The win counters are safe integers, and so is the next value of
    each. *)
Definition exactCounters (st : PersistedState) : Prop :=
  isSafeInteger (winsA st) && isSafeInteger (winsA st + 1)
  && isSafeInteger (winsB st) && isSafeInteger (winsB st + 1) = true.

(** No round after the first is marked as doubled. *)
Definition doubledOnlyFirst (rs : list Round) : Prop :=
  Forall (fun r => isDouble r = false) (tl rs).

(** ** What the correctness of [trim] is stated with *)

(** No word of [words] starts with another. *)
Definition prefixFree (words : list string) : bool :=
  forallb (fun w =>
     forallb (fun w' =>
        match dropPrefix w w' with
        | Some (String _ _) => false
        | _ => true
        end) words) words.

(** The first byte of a text that has one. *)
Definition firstByte (s : string) : option ascii :=
  match s with
  | EmptyString => None
  | String c _ => Some c
  end.

(** The ends of [s] that are neither empty nor the whole of [s]. *)
Fixpoint properSuffixes (s : string) : list string :=
  match s with
  | EmptyString => []
  | String _ rest =>
      match rest with
      | EmptyString => []
      | String _ _ => rest :: properSuffixes rest
      end
  end.

(** No white space starts with the byte a white space goes on with: the
    later bytes of a UTF-8 sequence are not the first byte of any. *)
Definition selfSynchronizing (words : list string) : bool :=
  forallb (fun w =>
     forallb (fun y =>
        forallb (fun w' =>
           match firstByte y, firstByte w' with
           | Some c, Some d => negb (c =? d)%char
           | _, _ => true
           end) words) (properSuffixes w)) words.

(** ** What the component renders *)

(** [if (!state.onboardingDone) return ...]: the onboarding form is all
    that is rendered until the configuration is done. *)
Definition onboardingScreen (app : App) : bool := negb (onboardingDone (state app)).

Inductive Team : Type := TeamA | TeamB.

(** [totals.a > totals.b ? 'a' : totals.b > totals.a ? 'b' : null]; the
    team that carries the badge [GANA]. *)
Definition leadingTeam (app : App) : option Team :=
  if a (totals app) >? b (totals app) then Some TeamA
  else if b (totals app) >? a (totals app) then Some TeamB
  else None.

(** [disabled={state.rounds.length === 0}] on the undo button. *)
Definition undoDisabled (app : App) : bool :=
  (List.length (rounds (state app)) =? 0)%nat.

(** [state.rounds.length > 0 && ...]: whether the history is shown. *)
Definition historyVisible (app : App) : bool :=
  (0 <? List.length (rounds (state app)))%nat.

(** A line of the history: its React key, the number in front, the two
    scores with their emphasis, and the badge [x2]. *)
Record HistoryRow : Type := mkHistoryRow {
  rowKey : Z;
  actualIdx : Z;
  shownA : Z;
  shownB : Z;
  isTeamAWinner : bool;
  isTeamBWinner : bool;
  x2 : bool
}.

(** [array.map((element, idx) => ...)], the index starting from [idx]. *)
Fixpoint mapWithIndex {A B : Type} (f : A -> nat -> B) (l : list A) (idx : nat)
  : list B :=
  match l with
  | [] => []
  | x :: rest => f x idx :: mapWithIndex f rest (S idx)
  end.

(** What the callback of the history renders for [round] under the number
    [n]. *)
Definition historyRow (round : Round) (n : Z) : HistoryRow :=
  {| rowKey := id round;
     actualIdx := n;
     shownA := appliedA round;
     shownB := appliedB round;
     isTeamAWinner := appliedA round >? appliedB round;
     isTeamBWinner := appliedB round >? appliedA round;
     x2 := isDouble round |}.

(** [[...state.rounds].reverse().map((round, idx) => ...)] with
    [actualIdx = state.rounds.length - idx]. *)
Definition historyRows (app : App) : list HistoryRow :=
  let rs := rounds (state app) in
  mapWithIndex
    (fun round idx =>
       historyRow round (Z.of_nat (List.length rs) - Z.of_nat idx))
    (List.rev rs) 0.

(** ** Invariants of the aggregate *)

(** A round as [addRound] builds it: raw values that are non-negative and
    not both zero, applied values that are the raw ones or their doubles
    according to [isDouble]. *)
Definition roundWellFormed (r : Round) : Prop :=
  0 <= rawA r /\ 0 <= rawB r /\ (rawA r <> 0 \/ rawB r <> 0)
  /\ appliedA r = (if isDouble r then rawA r * 2 else rawA r)
  /\ appliedB r = (if isDouble r then rawB r * 2 else rawB r).

(** No prefix of the ledger is a won match. *)
Definition neverWon (rs : list Round) : Prop :=
  forall k, aWon (sumRounds (firstn k rs)) = false
            /\ bWon (sumRounds (firstn k rs)) = false.

(** The names of a configuration: without white space at either end, not
    empty, and different even when case is ignored. *)
Definition namesValid (toLowerCase : string -> string) (st : PersistedState)
  : Prop :=
  trimmed (teamAName st)
  /\ trimmed (teamBName st)
  /\ teamAName st <> EmptyString
  /\ teamBName st <> EmptyString
  /\ toLowerCase (teamAName st) <> toLowerCase (teamBName st).

(** ** States to run the handlers on *)

Definition onboarded : App :=
  run numberOfLiteral asciiLowerCase (initialApp defaultState)
    [ChangeTeamA " Rojos "; ChangeTeamB "Azules"; SaveOnboarding].

(** Three rounds played, (30,10), (40,20), (50,15), and (35,40) typed in. *)
Definition aboutToWin : App :=
  run numberOfLiteral asciiLowerCase onboarded
    [ChangeRoundA "30"; ChangeRoundB "10"; AddRound 1001;
     ChangeRoundA "40"; ChangeRoundB "20"; AddRound 1002;
     ChangeRoundA "50"; ChangeRoundB "15"; AddRound 1003;
     ChangeRoundA "35"; ChangeRoundB "40"].

(** The rule set, an empty ledger, and (20,10) typed in. *)
Definition firstHandDoubled : App :=
  run numberOfLiteral asciiLowerCase (initialApp defaultState)
    [ChangeTeamA "Rojos"; ChangeTeamB "Azules"; ChangeDouble true;
     SaveOnboarding; ChangeRoundA "20"; ChangeRoundB "10"].

(** Two rounds saved on the same reading of the clock, and on two
    different ones. *)
Definition sameTick : list Event :=
  [ChangeTeamA "Rojos"; ChangeTeamB "Azules"; SaveOnboarding;
   ChangeRoundA "5"; AddRound 1700000000000;
   ChangeRoundB "6"; AddRound 1700000000000].

Definition twoTicks : list Event :=
  [ChangeTeamA "Rojos"; ChangeTeamB "Azules"; SaveOnboarding;
   ChangeRoundA "5"; AddRound 1700000000000;
   ChangeRoundB "6"; AddRound 1700000004000].

(** A backup whose ledger holds [null] instead of a round. *)
Definition nullRoundBackup : value :=
  JObj [("onboardingDone", JBool true);
        ("teamAName", JStr "Rojos");
        ("teamBName", JStr "Azules");
        ("doubleFirstHand", JBool false);
        ("rounds", JArr [JNull]);
        ("winsA", JNum (Int 0));
        ("winsB", JNum (Int 0))].

(** A match in progress, with a win on the board. *)
Definition midMatch : App :=
  run numberOfLiteral asciiLowerCase (addRound numberOfLiteral 1004 aboutToWin)
    [ChangeDouble true; SaveSettings;
     ChangeRoundA "20"; ChangeRoundB "10"; AddRound 1005;
     ChangeRoundB "25"; AddRound 1006].

(** * Properties *)

(** ** Scoring *)

Lemma sumRounds_from (rs : list Round) : forall acc,
  fold_left
    (fun acc round =>
       {| a := a acc + appliedA round; b := b acc + appliedB round |}) rs acc
  = {| a := a acc + totalA rs; b := b acc + totalB rs |}.
Proof.
  unfold totalA, totalB.
  induction rs as [|r rs IH]; intros [x y]; simpl.
  - f_equal; lia.
  - rewrite IH. simpl. f_equal; lia.
Qed.

(** [computeTotals]: the reduction of the source is the two sums. *)
Lemma sumRounds_totals (rs : list Round) :
  sumRounds rs = {| a := totalA rs; b := totalB rs |}.
Proof. unfold sumRounds. rewrite sumRounds_from. reflexivity. Qed.

Lemma aWon_iff (t : Totals) : aWon t = true <-> a t >= 150 /\ a t > b t.
Proof.
  unfold aWon, TARGET_SCORE. rewrite andb_true_iff, Z.geb_le, Z.gtb_lt. lia.
Qed.

Lemma bWon_iff (t : Totals) : bWon t = true <-> b t >= 150 /\ b t > a t.
Proof.
  unfold bWon, TARGET_SCORE. rewrite andb_true_iff, Z.geb_le, Z.gtb_lt. lia.
Qed.

Lemma not_both_won (t : Totals) : aWon t && bWon t = false.
Proof.
  destruct (aWon t) eqn:EA, (bWon t) eqn:EB; try reflexivity.
  apply aWon_iff in EA. apply bWon_iff in EB. lia.
Qed.

(** What [addRound] does with a validated input, branch by branch. *)
Lemma addRound_valid Number now app x y :
  submits Number app x y ->
  addRound Number now app =
  let st := state app in
  let t := sumRounds (rounds st ++ [nextRound st now x y]) in
  if aWon t || bWon t then
    {| state := {| onboardingDone := onboardingDone st;
                   teamAName := teamAName st;
                   teamBName := teamBName st;
                   doubleFirstHand := doubleFirstHand st;
                   rounds := [];
                   winsA := if aWon t then winsA st + 1 else winsA st;
                   winsB := if bWon t then winsB st + 1 else winsB st |};
       teamAInput := teamAInput app; teamBInput := teamBInput app;
       doubleInput := doubleInput app; roundA := ""; roundB := "";
       error := "";
       winnerBanner :=
         ((if aWon t then teamAName st else teamBName st) ++ WINNER_SUFFIX)%string;
       settingsOpen := settingsOpen app |}
  else
    {| state := {| onboardingDone := onboardingDone st;
                   teamAName := teamAName st;
                   teamBName := teamBName st;
                   doubleFirstHand := doubleFirstHand st;
                   rounds := rounds st ++ [nextRound st now x y];
                   winsA := winsA st;
                   winsB := winsB st |};
       teamAInput := teamAInput app; teamBInput := teamBInput app;
       doubleInput := doubleInput app; roundA := ""; roundB := "";
       error := "";
       winnerBanner := winnerBanner app; settingsOpen := settingsOpen app |}.
Proof.
  intros (HA & HB & Hx & Hy & Hnz).
  unfold addRound. cbn [setError roundA roundB state].
  rewrite HA, HB. cbn [Number_isInteger lt0 is0 intValue negb orb].
  assert (Ex : (x <? 0) = false) by (apply Z.ltb_ge; lia).
  assert (Ey : (y <? 0) = false) by (apply Z.ltb_ge; lia).
  rewrite Ex, Ey. cbn [orb].
  assert (Ez : ((x =? 0) && (y =? 0)) = false).
  { apply andb_false_iff.
    destruct Hnz; [left|right]; apply Z.eqb_neq; assumption. }
  rewrite Ez. cbv zeta.
  destruct (aWon _ || bWon _); reflexivity.
Qed.

Ltac split_all := repeat match goal with |- _ /\ _ => split end.

Ltac show_submits :=
  unfold submits; split_all; try reflexivity; try lia; try (left; lia).

(** C1.  After a validated round is appended, team A is declared the winner
    if and only if its new applied total is at least 150 and strictly above
    team B's new applied total, and symmetrically for team B; no pair of
    totals lets both teams meet the condition, and the two are never both
    declared.  This is for the safe integers, where the sums of the doubles
    are the sums of the integers: the scores of the new ledger, every total
    on the way to its totals, and the win counters with their next
    values. *)
Theorem addRound_win_condition Number now app x y :
  submits Number app x y ->
  exactTotals (rounds (state app) ++ [nextRound (state app) now x y]) ->
  exactCounters (state app) ->
  let st := state app in
  let after := addRound Number now app in
  let ledger := (rounds st ++ [nextRound st now x y])%list in
  (declaredWinnerA app after
     <-> totalA ledger >= 150 /\ totalA ledger > totalB ledger)
  /\ (declaredWinnerB app after
     <-> totalB ledger >= 150 /\ totalB ledger > totalA ledger)
  /\ (forall ta tb : Z,
        ~ ((ta >= 150 /\ ta > tb) /\ (tb >= 150 /\ tb > ta)))
  /\ ~ (declaredWinnerA app after /\ declaredWinnerB app after).
Proof.
  intros Hv _ _ st after ledger.
  assert (E : after = addRound Number now app) by reflexivity.
  rewrite (addRound_valid Number now app x y Hv) in E.
  cbv zeta in E. fold st in E. fold ledger in E.
  pose proof (aWon_iff (sumRounds ledger)) as HA.
  pose proof (bWon_iff (sumRounds ledger)) as HB.
  pose proof (not_both_won (sumRounds ledger)) as HAB.
  rewrite sumRounds_totals in E, HA, HB, HAB. cbn [a b] in HA, HB.
  set (t := {| a := totalA ledger; b := totalB ledger |}) in *.
  assert (IA : declaredWinnerA app after <-> aWon t = true).
  { unfold declaredWinnerA. fold st.
    destruct (aWon t) eqn:EA, (bWon t) eqn:EB; try discriminate HAB;
      rewrite E; cbn;
      (split;
       [ intros [H _]; first [reflexivity | lia]
       | intros H; first [discriminate H | split; reflexivity] ]). }
  assert (IB : declaredWinnerB app after <-> bWon t = true).
  { unfold declaredWinnerB. fold st.
    destruct (aWon t) eqn:EA, (bWon t) eqn:EB; try discriminate HAB;
      rewrite E; cbn;
      (split;
       [ intros [H _]; first [reflexivity | lia]
       | intros H; first [discriminate H | split; reflexivity] ]). }
  split_all.
  - rewrite IA. exact HA.
  - rewrite IB. exact HB.
  - intros ta tb. lia.
  - rewrite IA, IB. intros [EA EB]. rewrite EA, EB in HAB. discriminate.
Qed.

Lemma addRound_win_condition_witness :
  submits numberOfLiteral aboutToWin 35 40
  /\ exactTotals (rounds (state aboutToWin)
                  ++ [nextRound (state aboutToWin) 1004 35 40])
  /\ exactCounters (state aboutToWin)
  /\ declaredWinnerA aboutToWin (addRound numberOfLiteral 1004 aboutToWin).
Proof.
  assert (Hv : submits numberOfLiteral aboutToWin 35 40) by show_submits.
  assert (Ht : exactTotals (rounds (state aboutToWin)
                            ++ [nextRound (state aboutToWin) 1004 35 40]))
    by (vm_compute; reflexivity).
  assert (Hc : exactCounters (state aboutToWin)) by (vm_compute; reflexivity).
  split; [exact Hv|]. split; [exact Ht|]. split; [exact Hc|].
  apply (addRound_win_condition numberOfLiteral 1004 aboutToWin 35 40 Hv Ht Hc).
  split; vm_compute; [intros H; discriminate H | reflexivity].
Defined.

(** C2.  When the appended round takes a team's applied total to 150 or
    more and strictly above the other team's, that team's win counter goes
    up by exactly one, the other counter is unchanged, the ledger is reset to
    empty and the banner carries the winner's name; when neither team wins,
    the new round is committed to the ledger and both counters are
    unchanged.  This is for the safe integers, where the sums of the doubles
    are the sums of the integers: the scores of the new ledger, every total
    on the way to its totals, and the win counters with their next
    values. *)
Theorem addRound_outcome Number now app x y :
  submits Number app x y ->
  exactTotals (rounds (state app) ++ [nextRound (state app) now x y]) ->
  exactCounters (state app) ->
  let st := state app in
  let after := addRound Number now app in
  let ledger := (rounds st ++ [nextRound st now x y])%list in
  (totalA ledger >= 150 /\ totalA ledger > totalB ledger ->
     winsA (state after) = winsA st + 1
     /\ winsB (state after) = winsB st
     /\ rounds (state after) = []
     /\ winnerBanner after = (teamAName st ++ WINNER_SUFFIX)%string)
  /\ (totalB ledger >= 150 /\ totalB ledger > totalA ledger ->
     winsB (state after) = winsB st + 1
     /\ winsA (state after) = winsA st
     /\ rounds (state after) = []
     /\ winnerBanner after = (teamBName st ++ WINNER_SUFFIX)%string)
  /\ (~ (totalA ledger >= 150 /\ totalA ledger > totalB ledger) ->
      ~ (totalB ledger >= 150 /\ totalB ledger > totalA ledger) ->
     rounds (state after) = ledger
     /\ winsA (state after) = winsA st
     /\ winsB (state after) = winsB st
     /\ winnerBanner after = winnerBanner app).
Proof.
  intros Hv _ _ st after ledger.
  assert (E : after = addRound Number now app) by reflexivity.
  rewrite (addRound_valid Number now app x y Hv) in E.
  cbv zeta in E. fold st in E. fold ledger in E.
  pose proof (aWon_iff (sumRounds ledger)) as HA.
  pose proof (bWon_iff (sumRounds ledger)) as HB.
  pose proof (not_both_won (sumRounds ledger)) as HAB.
  rewrite sumRounds_totals in E, HA, HB, HAB. cbn [a b] in HA, HB.
  set (t := {| a := totalA ledger; b := totalB ledger |}) in *.
  split_all.
  - intros H. apply HA in H.
    destruct (bWon t); [rewrite H in HAB; discriminate HAB|].
    rewrite H in E. rewrite E. cbn. split_all; reflexivity.
  - intros H. apply HB in H.
    destruct (aWon t); [rewrite H in HAB; discriminate HAB|].
    rewrite H in E. rewrite E. cbn. split_all; reflexivity.
  - intros NA NB.
    destruct (aWon t); [exfalso; apply NA, HA; reflexivity|].
    destruct (bWon t); [exfalso; apply NB, HB; reflexivity|].
    rewrite E. cbn. split_all; reflexivity.
Qed.

Lemma addRound_outcome_witness :
  submits numberOfLiteral aboutToWin 35 40
  /\ exactTotals (rounds (state aboutToWin)
                  ++ [nextRound (state aboutToWin) 1004 35 40])
  /\ exactCounters (state aboutToWin)
  /\ winsA (state (addRound numberOfLiteral 1004 aboutToWin)) = 1
  /\ winsB (state (addRound numberOfLiteral 1004 aboutToWin)) = 0
  /\ rounds (state (addRound numberOfLiteral 1004 aboutToWin)) = []
  /\ winnerBanner (addRound numberOfLiteral 1004 aboutToWin)
     = ("Rojos" ++ WINNER_SUFFIX)%string.
Proof.
  assert (Hv : submits numberOfLiteral aboutToWin 35 40) by show_submits.
  assert (Ht : exactTotals (rounds (state aboutToWin)
                            ++ [nextRound (state aboutToWin) 1004 35 40]))
    by (vm_compute; reflexivity).
  assert (Hc : exactCounters (state aboutToWin)) by (vm_compute; reflexivity).
  split; [exact Hv|]. split; [exact Ht|]. split; [exact Hc|].
  apply (addRound_outcome numberOfLiteral 1004 aboutToWin 35 40 Hv Ht Hc).
  split; vm_compute; [intros H; discriminate H | reflexivity].
Defined.

(** C3.  The applied values of an accepted round are double its raw values
    if and only if [doubleFirstHand] is set in the state the round is
    submitted to and the ledger of that state is empty; the flag is the one
    of the current state, so a change saved in the settings is the one in
    force; a round submitted to a non-empty ledger is never doubled; and the
    first round after a reset or after a win is doubled again when the flag
    is set. *)
Theorem doubling_rule Number now app x y :
  submits Number app x y ->
  let st := state app in
  let r := nextRound st now x y in
  let after := addRound Number now app in
  (rounds (state after) = (rounds st ++ [r])%list
   \/ (rounds (state after) = []
       /\ (declaredWinnerA app after \/ declaredWinnerB app after)))
  /\ rawA r = x /\ rawB r = y
  /\ ((appliedA r = 2 * rawA r /\ appliedB r = 2 * rawB r)
      <-> (doubleFirstHand st = true /\ rounds st = []))
  /\ (isDouble r = true <-> (doubleFirstHand st = true /\ rounds st = []))
  /\ (rounds st <> [] ->
      isDouble r = false /\ appliedA r = rawA r /\ appliedB r = rawB r)
  /\ (forall toLowerCase (before : App),
        app = saveSettings toLowerCase before -> error app = "" ->
        doubleFirstHand st = doubleInput before)
  /\ (forall (played : App) now' x' y',
        doubleFirstHand (state played) = true ->
        let r' := nextRound (state (resetCurrentGame played)) now' x' y' in
        isDouble r' = true /\ appliedA r' = 2 * x' /\ appliedB r' = 2 * y')
  /\ (doubleFirstHand st = true ->
      rounds (state after) = [] ->
      forall now' x' y',
        let r' := nextRound (state after) now' x' y' in
        isDouble r' = true /\ appliedA r' = 2 * x' /\ appliedB r' = 2 * y').
Proof.
  intros Hv st r after.
  assert (E : after = addRound Number now app) by reflexivity.
  rewrite (addRound_valid Number now app x y Hv) in E.
  cbv zeta in E. fold st in E. fold r in E.
  destruct Hv as (_ & _ & Hx & Hy & Hnz).
  assert (Hempty : (List.length (rounds st) =? 0)%nat = true <-> rounds st = []).
  { rewrite Nat.eqb_eq. apply length_zero_iff_nil. }
  assert (Hd : isDouble r = true <-> doubleFirstHand st = true /\ rounds st = []).
  { unfold r, nextRound, isDoubleNow. cbn [isDouble].
    rewrite andb_true_iff, Hempty. reflexivity. }
  split_all.
  - pose proof (not_both_won (sumRounds (rounds st ++ [r]))) as HAB.
    set (t := sumRounds (rounds st ++ [r])) in *.
    unfold declaredWinnerA, declaredWinnerB. fold st.
    destruct (aWon t) eqn:EA, (bWon t) eqn:EB; try discriminate HAB;
      rewrite E; cbn; auto.
  - reflexivity.
  - reflexivity.
  - rewrite <- Hd. unfold r, nextRound.
    cbn [appliedA appliedB rawA rawB isDouble].
    destruct (isDoubleNow st);
      (split;
       [ intros [H1 H2]; first [reflexivity | lia]
       | intros H; first [discriminate H | lia] ]).
  - exact Hd.
  - intros Hne. unfold r, nextRound, isDoubleNow.
    destruct (rounds st) as [|r0 rs]; [contradiction|].
    cbn [List.length Nat.eqb]. rewrite andb_false_r.
    cbn [appliedA appliedB rawA rawB isDouble]. split_all; reflexivity.
  - intros toLowerCase before Happ Herr. unfold st. subst app. revert Herr.
    unfold saveSettings.
    destruct ((trim (teamAInput before) =? "")%string
              || (trim (teamBInput before) =? "")%string);
      [cbn; discriminate|].
    destruct (toLowerCase (trim (teamAInput before))
              =? toLowerCase (trim (teamBInput before)))%string;
      [cbn; discriminate|].
    reflexivity.
  - intros played now' x' y' Hflag. unfold nextRound, isDoubleNow.
    cbn [resetCurrentGame setWinnerBanner setState state rounds
         doubleFirstHand List.length Nat.eqb].
    rewrite Hflag.
    cbn [andb appliedA appliedB rawA rawB isDouble].
    split_all; try reflexivity; lia.
  - intros Hflag Hnil now' x' y'. unfold nextRound, isDoubleNow.
    rewrite Hnil.
    assert (F : doubleFirstHand (state after) = true).
    { rewrite E. destruct (aWon _ || bWon _); exact Hflag. }
    rewrite F.
    cbn [List.length Nat.eqb andb appliedA appliedB rawA rawB isDouble].
    split_all; try reflexivity; lia.
Qed.

Lemma doubling_rule_witness :
  submits numberOfLiteral firstHandDoubled 20 10
  /\ rounds (state (addRound numberOfLiteral 1001 firstHandDoubled))
     = [mkRound 1001 20 10 40 20 true].
Proof.
  assert (Hv : submits numberOfLiteral firstHandDoubled 20 10) by show_submits.
  split; [exact Hv|].
  destruct (doubling_rule numberOfLiteral 1001 firstHandDoubled 20 10 Hv)
    as [[Hcommitted | [Hwon _]] _].
  - exact Hcommitted.
  - vm_compute in Hwon. discriminate Hwon.
Defined.

(** The examples of the specification: four rounds to 155 against 85, and a
    doubled first hand followed by a plain one. *)
Example spec_examples :
  sumRounds (rounds (state aboutToWin)) = {| a := 120; b := 45 |}
  /\ sumRounds (rounds (state aboutToWin)
                ++ [nextRound (state aboutToWin) 1004 35 40])
     = {| a := 155; b := 85 |}
  /\ totals (addRound numberOfLiteral 1001 firstHandDoubled)
     = {| a := 40; b := 20 |}
  /\ totals (run numberOfLiteral asciiLowerCase firstHandDoubled
               [AddRound 1001; ChangeRoundA "10"; ChangeRoundB "10";
                AddRound 1002])
     = {| a := 50; b := 30 |}.
Proof. split_all; vm_compute; reflexivity. Qed.

(** ** Validation of a round *)






(** ** Undo *)

Lemma firstn_init {A : Type} (init : list A) (last : A) :
  firstn (List.length (init ++ [last]) - 1) (init ++ [last]) = init.
Proof.
  rewrite length_app. cbn [List.length].
  replace (List.length init + 1 - 1)%nat with (List.length init + 0)%nat by lia.
  rewrite firstn_app_2. cbn. apply app_nil_r.
Qed.

(** C7.  On an empty ledger [undoRound] leaves the component as it is; on a
    ledger of N >= 1 rounds it removes the Nth round and keeps the first
    N-1 as they are; it never changes the win counters or the
    configuration. *)
Theorem undoRound_spec (app : App) :
  let st := state app in
  let after := undoRound app in
  (rounds st = [] -> after = app)
  /\ (forall init last,
        rounds st = (init ++ [last])%list -> rounds (state after) = init)
  /\ (forall N, List.length (rounds st) = S N ->
        List.length (rounds (state after)) = N
        /\ forall i, (i < N)%nat ->
             nth_error (rounds (state after)) i = nth_error (rounds st) i)
  /\ winsA (state after) = winsA st
  /\ winsB (state after) = winsB st
  /\ teamAName (state after) = teamAName st
  /\ teamBName (state after) = teamBName st
  /\ doubleFirstHand (state after) = doubleFirstHand st
  /\ onboardingDone (state after) = onboardingDone st.
Proof.
  intros st after. unfold after, undoRound, st. cbn [setState state rounds].
  split_all; try reflexivity.
  - destruct app as [[od ta tb df rs wa wb] tai tbi di ra rb er wbn so].
    cbn. intros ->. reflexivity.
  - intros init last E. cbn. rewrite E. apply firstn_init.
  - cbn. intros N HN. rewrite HN.
    replace (S N - 1)%nat with N by lia. split.
    + rewrite length_firstn. lia.
    + intros i Hi. rewrite nth_error_firstn.
      apply Nat.ltb_lt in Hi. rewrite Hi. reflexivity.
Qed.

(** ** Configuration *)

Lemma append_assoc (s t u : string) : ((s ++ t) ++ u = s ++ (t ++ u))%string.
Proof. induction s as [|c s IH]; cbn; [reflexivity | rewrite IH; reflexivity]. Qed.

Lemma append_nil_r (s : string) : (s ++ "")%string = s.
Proof. induction s as [|c s IH]; cbn; [reflexivity | rewrite IH; reflexivity]. Qed.

Lemma length_append (s t : string) :
  String.length (s ++ t) = (String.length s + String.length t)%nat.
Proof. induction s as [|c s IH]; cbn; [reflexivity | rewrite IH; reflexivity]. Qed.

Lemma dropPrefix_iff (w s r : string) : dropPrefix w s = Some r <-> s = w ++ r.
Proof.
  revert s. induction w as [|c w IH]; intros s; cbn.
  - split; [intros H; injection H; auto | intros ->; reflexivity].
  - destruct s as [|d s]; [split; discriminate|].
    destruct (Ascii.eqb_spec c d) as [->|Hn].
    + rewrite IH. split; [intros ->; reflexivity | intros H; injection H; auto].
    + split; [discriminate | intros H; injection H as H1 H2; contradiction (Hn (eq_sym H1))].
Qed.

Lemma stripAny_some (words : list string) (s r : string) :
  stripAny words s = Some r -> exists w, In w words /\ s = w ++ r.
Proof.
  induction words as [|w words IH]; cbn; [discriminate|].
  destruct (dropPrefix w s) as [r'|] eqn:E.
  - intros H. injection H as ->. exists w. split; [left; reflexivity|].
    apply dropPrefix_iff, E.
  - intros H. destruct (IH H) as (w' & Hin & Hs). exists w'. auto.
Qed.

Lemma stripAny_none (words : list string) (s : string) :
  stripAny words s = None -> forall w r, In w words -> s <> w ++ r.
Proof.
  induction words as [|w words IH]; cbn; [intros _ w r []|].
  destruct (dropPrefix w s) as [r'|] eqn:E; [discriminate|].
  intros H w' r [<- | Hin].
  - intros Hs. apply dropPrefix_iff in Hs. congruence.
  - apply IH; assumption.
Qed.

(** Two strings that start the same text: one starts the other. *)
Lemma append_comparable (w w' r r' : string) :
  w ++ r = w' ++ r' ->
  (exists x, w' = w ++ x /\ r = x ++ r') \/ (exists x, w = w' ++ x /\ r' = x ++ r).
Proof.
  revert w'. induction w as [|c w IH]; intros w' H; cbn in H.
  - left. exists w'. auto.
  - destruct w' as [|d w']; cbn in H.
    + right. exists (String c w). auto.
    + injection H as -> H. destruct (IH w' H) as [(x & -> & Hr) | (x & -> & Hr)].
      * left. exists x. auto.
      * right. exists x. auto.
Qed.

Lemma prefixFree_sound (words : list string) :
  prefixFree words = true ->
  forall w w' x, In w words -> In w' words -> w' = w ++ x -> x = EmptyString.
Proof.
  unfold prefixFree. rewrite forallb_forall. intros H w w' x Hw Hw' E.
  specialize (H w Hw). rewrite forallb_forall in H. specialize (H w' Hw').
  apply dropPrefix_iff in E. rewrite E in H. destruct x; [reflexivity | discriminate].
Qed.

Lemma whiteSpaces_prefixFree : prefixFree whiteSpaces = true.
Proof. vm_compute. reflexivity. Qed.

Lemma whiteSpace_unique (w w' r r' : string) :
  whiteSpace w -> whiteSpace w' -> w ++ r = w' ++ r' -> w = w' /\ r = r'.
Proof.
  intros Hw Hw' E.
  destruct (append_comparable w w' r r' E) as [(x & E1 & E2) | (x & E1 & E2)].
  - pose proof (prefixFree_sound _ whiteSpaces_prefixFree w w' x Hw Hw' E1) as ->.
    rewrite append_nil_r in E1. auto.
  - pose proof (prefixFree_sound _ whiteSpaces_prefixFree w' w x Hw' Hw E1) as ->.
    rewrite append_nil_r in E1. auto.
Qed.

Lemma whiteSpace_not_empty (w : string) : whiteSpace w -> w <> EmptyString.
Proof.
  intros H E. subst w. revert H. unfold whiteSpace. vm_compute.
  intuition discriminate.
Qed.

Lemma stripAny_complete (words : list string) (w r : string) :
  In w words -> stripAny words (w ++ r) <> None.
Proof.
  intros Hin H. apply (stripAny_none words (w ++ r) H w r Hin). reflexivity.
Qed.

Lemma stripWhiteSpace_some (s r : string) :
  stripWhiteSpace s = Some r -> exists w, whiteSpace w /\ s = w ++ r.
Proof. apply stripAny_some. Qed.

Lemma stripWhiteSpace_shorter (s r : string) :
  stripWhiteSpace s = Some r -> (String.length r < String.length s)%nat.
Proof.
  intros H. destruct (stripWhiteSpace_some s r H) as (w & Hw & ->).
  rewrite length_append. apply whiteSpace_not_empty in Hw.
  destruct w; [contradiction|]. cbn. lia.
Qed.

Lemma stripWhiteSpace_append (w r : string) :
  whiteSpace w -> stripWhiteSpace (w ++ r) = Some r.
Proof.
  intros Hw. destruct (stripWhiteSpace (w ++ r)) as [r'|] eqn:E.
  - destruct (stripWhiteSpace_some _ _ E) as (w' & Hw' & E').
    destruct (whiteSpace_unique w w' r r' Hw Hw' E') as [_ ->]. reflexivity.
  - exfalso. apply (stripAny_complete whiteSpaces w r Hw E).
Qed.

Lemma trimStartFrom_enough (n : nat) : forall m s,
  (String.length s <= n)%nat -> (String.length s <= m)%nat ->
  trimStartFrom n s = trimStartFrom m s.
Proof.
  induction n as [|n IH]; intros m s Hn Hm.
  - destruct s; [|cbn in Hn; lia]. destruct m; reflexivity.
  - destruct m as [|m].
    + destruct s; [reflexivity | cbn in Hm; lia].
    + cbn [trimStartFrom]. destruct (stripWhiteSpace s) as [r|] eqn:E;
        [|reflexivity].
      apply stripWhiteSpace_shorter in E. apply IH; lia.
Qed.

(** [trimStart] strips white space as long as the string starts with some. *)
Lemma trimStart_step (s : string) :
  trimStart s = match stripWhiteSpace s with
                | Some rest => trimStart rest
                | None => s
                end.
Proof.
  unfold trimStart. destruct s as [|c s]; [reflexivity|].
  cbn [String.length trimStartFrom].
  destruct (stripWhiteSpace (String c s)) as [r|] eqn:E; [|reflexivity].
  apply stripWhiteSpace_shorter in E. cbn in E.
  apply trimStartFrom_enough; lia.
Qed.

Lemma trimStart_whiteSpace (w r : string) :
  whiteSpace w -> trimStart (w ++ r) = trimStart r.
Proof.
  intros Hw. rewrite trimStart_step, (stripWhiteSpace_append w r Hw).
  reflexivity.
Qed.

Lemma by_length (P : string -> Prop) :
  (forall s, (forall t, (String.length t < String.length s)%nat -> P t) -> P s) ->
  forall s, P s.
Proof.
  intros H s.
  assert (G : forall n t, (String.length t < n)%nat -> P t).
  { induction n as [|n IH]; intros t Ht; [lia|].
    apply H. intros u Hu. apply IH. lia. }
  apply (G (S (String.length s))). lia.
Qed.

Lemma onlyWhiteSpace_append (s t : string) :
  onlyWhiteSpace s -> onlyWhiteSpace t -> onlyWhiteSpace (s ++ t).
Proof.
  induction 1 as [|w s Hw Hs IH]; intros Ht; [exact Ht|].
  rewrite append_assoc. constructor; auto.
Qed.

Lemma trimStart_split (s : string) :
  exists l, s = l ++ trimStart s /\ onlyWhiteSpace l.
Proof.
  induction s as [s IH] using by_length. rewrite trimStart_step.
  destruct (stripWhiteSpace s) as [r|] eqn:E.
  - destruct (stripWhiteSpace_some s r E) as (w & Hw & ->).
    destruct (IH r (stripWhiteSpace_shorter _ _ E)) as (l & El & Hl).
    exists (w ++ l). rewrite append_assoc, <- El.
    split; [reflexivity | constructor; assumption].
  - exists EmptyString. split; [reflexivity | constructor].
Qed.

Lemma trimStart_stops (s : string) : stripWhiteSpace (trimStart s) = None.
Proof.
  induction s as [s IH] using by_length. rewrite trimStart_step.
  destruct (stripWhiteSpace s) as [r|] eqn:E; [|exact E].
  apply IH, (stripWhiteSpace_shorter _ _ E).
Qed.

Lemma trimStart_empty_iff (s : string) :
  trimStart s = EmptyString <-> onlyWhiteSpace s.
Proof.
  split.
  - intros H. destruct (trimStart_split s) as (l & E & Hl).
    rewrite H, append_nil_r in E. subst l. exact Hl.
  - induction 1 as [|w s Hw Hs IH]; [reflexivity|].
    rewrite (trimStart_whiteSpace w s Hw). exact IH.
Qed.

Lemma trimEnd_split (s : string) :
  exists r, s = trimEnd s ++ r /\ onlyWhiteSpace r.
Proof.
  induction s as [|c s (r & E & Hr)]; cbn [trimEnd].
  - exists EmptyString. split; [reflexivity | constructor].
  - destruct (trimStart (String c s) =? "")%string eqn:Ew.
    + exists (String c s). split; [reflexivity|].
      apply trimStart_empty_iff, String.eqb_eq, Ew.
    + exists r. split; [cbn; f_equal; exact E | exact Hr].
Qed.

Lemma no_leading_whiteSpace (u : string) :
  stripWhiteSpace u = None <-> (forall w rest, whiteSpace w -> u <> w ++ rest).
Proof.
  split.
  - intros H w rest Hw. apply (stripAny_none whiteSpaces u H w rest Hw).
  - intros H. destruct (stripWhiteSpace u) as [r|] eqn:E; [|reflexivity].
    destruct (stripWhiteSpace_some u r E) as (w & Hw & Eu).
    contradiction (H w r Hw Eu).
Qed.

Lemma trimEnd_no_trailing (s : string) :
  forall w rest, whiteSpace w -> trimEnd s <> rest ++ w.
Proof.
  induction s as [|c s IH]; intros w rest Hw; cbn [trimEnd].
  - intros E. destruct rest; cbn in E; [|discriminate E].
    apply (whiteSpace_not_empty w Hw). auto.
  - destruct (trimStart (String c s) =? "")%string eqn:Ew.
    + intros E. destruct rest; cbn in E; [|discriminate E].
      apply (whiteSpace_not_empty w Hw). auto.
    + intros E. destruct rest as [|d rest]; cbn in E.
      * destruct (trimEnd_split s) as (r & Es & Hr).
        apply String.eqb_neq in Ew. apply Ew. apply trimStart_empty_iff.
        rewrite Es. change (String c (trimEnd s ++ r))
          with (String c (trimEnd s) ++ r).
        rewrite E. constructor; assumption.
      * injection E as _ E. apply (IH w rest Hw E).
Qed.

Lemma trimEnd_keeps_start (u : string) :
  (forall w rest, whiteSpace w -> u <> w ++ rest) ->
  forall w rest, whiteSpace w -> trimEnd u <> w ++ rest.
Proof.
  intros H w rest Hw E. destruct (trimEnd_split u) as (r & Eu & _).
  apply (H w (rest ++ r) Hw). rewrite Eu at 1. rewrite E. apply append_assoc.
Qed.

(** What [trim] returns neither starts nor ends with white space. *)
Lemma trim_trimmed (s : string) : trimmed (trim s).
Proof.
  intros w rest Hw. unfold trim. split.
  - apply trimEnd_keeps_start; [|exact Hw].
    apply no_leading_whiteSpace, trimStart_stops.
  - apply trimEnd_no_trailing, Hw.
Qed.

(** [trim] removes white space at both ends and nothing else. *)
Lemma trim_trimmedOf (s : string) : trimmedOf s (trim s).
Proof.
  split; [|apply trim_trimmed].
  destruct (trimStart_split s) as (l & El & Hl).
  destruct (trimEnd_split (trimStart s)) as (r & Er & Hr).
  exists l, r. unfold trim. rewrite <- Er. auto.
Qed.

(** A name is empty once trimmed exactly when it is white space only. *)
Lemma trim_empty_iff (s : string) : trim s = EmptyString <-> onlyWhiteSpace s.
Proof.
  split.
  - intros H. destruct (trim_trimmedOf s) as [(l & r & E & Hl & Hr) _].
    rewrite H in E. cbn in E. rewrite E. apply onlyWhiteSpace_append; assumption.
  - intros H. apply trimStart_empty_iff in H. unfold trim. rewrite H. reflexivity.
Qed.


Lemma properSuffixes_In (q y : string) :
  q <> EmptyString -> y <> EmptyString -> In y (properSuffixes (q ++ y)).
Proof.
  induction q as [|c q IH]; intros Hq Hy; [contradiction|].
  cbn [append properSuffixes]. destruct q as [|d q].
  - cbn [append]. destruct y; [contradiction | left; reflexivity].
  - cbn [append]. right. apply IH; [discriminate | exact Hy].
Qed.

Lemma firstByte_append (s t : string) :
  s <> EmptyString -> firstByte (s ++ t) = firstByte s.
Proof. destruct s; [contradiction | reflexivity]. Qed.

Lemma whiteSpaces_selfSynchronizing : selfSynchronizing whiteSpaces = true.
Proof. vm_compute. reflexivity. Qed.

(** What is left of a white space cut in two does not start a white
    space. *)
Lemma whiteSpace_cut (w q y rest w' rest' : string) :
  whiteSpace w -> whiteSpace w' -> w = q ++ y ->
  q <> EmptyString -> y <> EmptyString -> y ++ rest <> w' ++ rest'.
Proof.
  intros Hw Hw' -> Hq Hy E.
  pose proof whiteSpaces_selfSynchronizing as H. unfold selfSynchronizing in H.
  rewrite forallb_forall in H. specialize (H _ Hw).
  rewrite forallb_forall in H. specialize (H y (properSuffixes_In q y Hq Hy)).
  rewrite forallb_forall in H. specialize (H w' Hw').
  apply (f_equal firstByte) in E.
  rewrite (firstByte_append y rest Hy) in E.
  rewrite (firstByte_append w' rest' (whiteSpace_not_empty w' Hw')) in E.
  rewrite E in H. destruct (firstByte w') as [d|].
  - rewrite Ascii.eqb_refl in H. discriminate H.
  - destruct y; [contradiction | discriminate E].
Qed.

Lemma onlyWhiteSpace_first (s : string) :
  onlyWhiteSpace s -> s <> EmptyString ->
  exists w rest, whiteSpace w /\ onlyWhiteSpace rest /\ s = w ++ rest.
Proof.
  intros H Hs. inversion H as [E | w rest Hw Hrest E].
  - contradiction Hs. auto.
  - exists w, rest. auto.
Qed.

Lemma onlyWhiteSpace_last (s : string) :
  onlyWhiteSpace s -> s <> EmptyString ->
  exists rest w, whiteSpace w /\ s = rest ++ w.
Proof.
  induction 1 as [|w s Hw Hs IH]; intros Hne; [contradiction Hne; reflexivity|].
  destruct s as [|c s].
  - exists EmptyString, w. rewrite append_nil_r. auto.
  - destruct IH as (rest & w' & Hw' & E); [discriminate|].
    exists (w ++ rest), w'. rewrite E, append_assoc. auto.
Qed.

(** The start of white space that goes on with white space is white
    space. *)
Lemma onlyWhiteSpace_start (s : string) :
  onlyWhiteSpace s ->
  forall q r, s = q ++ r -> onlyWhiteSpace r -> onlyWhiteSpace q.
Proof.
  induction 1 as [|w s Hw Hs IH]; intros q r E Hr.
  - destruct q; [constructor | discriminate E].
  - destruct (append_comparable w q s r E) as [(x & -> & Es) | (y & Ew & Er)].
    + constructor; [exact Hw | apply (IH x r Es Hr)].
    + destruct q as [|c q]; [constructor|].
      destruct y as [|d y].
      * rewrite append_nil_r in Ew. subst w.
        rewrite <- (append_nil_r (String c q)). constructor; [exact Hw | constructor].
      * exfalso.
        destruct (onlyWhiteSpace_first r Hr) as (w' & rest' & Hw' & _ & Er');
          [rewrite Er; discriminate|].
        apply (whiteSpace_cut w (String c q) (String d y) s w' rest' Hw Hw' Ew);
          [discriminate | discriminate |].
        rewrite <- Er. exact Er'.
Qed.

Lemma trimStart_leading (l x : string) :
  onlyWhiteSpace l -> trimStart (l ++ x) = trimStart x.
Proof.
  induction 1 as [|w l Hw Hl IH]; [reflexivity|].
  rewrite append_assoc, (trimStart_whiteSpace w _ Hw). exact IH.
Qed.

Lemma trimStart_trimmed (n r : string) :
  trimmed n -> n <> EmptyString -> onlyWhiteSpace r ->
  trimStart (n ++ r) = n ++ r.
Proof.
  intros Hn Hne Hr. rewrite trimStart_step.
  assert (H : stripWhiteSpace (n ++ r) = None); [|rewrite H; reflexivity].
  apply no_leading_whiteSpace. intros w rest Hw E.
  destruct (append_comparable n w r rest E) as [(y & Ew & Er) | (x & En & _)].
  - destruct y as [|d y].
    + rewrite append_nil_r in Ew. subst w.
      apply (proj1 (Hn n EmptyString Hw)). symmetry. apply append_nil_r.
    + destruct (onlyWhiteSpace_first r Hr) as (w' & rest' & Hw' & _ & Er');
        [rewrite Er; discriminate|].
      apply (whiteSpace_cut w n (String d y) rest w' rest' Hw Hw' Ew Hne);
        [discriminate|].
      rewrite <- Er. exact Er'.
  - apply (proj1 (Hn w x Hw)). exact En.
Qed.

Lemma trimEnd_onlyWhiteSpace (r : string) :
  onlyWhiteSpace r -> trimEnd r = EmptyString.
Proof.
  intros Hr. destruct r as [|c r]; [reflexivity|]. cbn [trimEnd].
  apply trimStart_empty_iff in Hr. rewrite Hr. reflexivity.
Qed.

Lemma trimEnd_trailing (n r : string) :
  (forall p q, n = p ++ q -> q <> EmptyString -> ~ onlyWhiteSpace (q ++ r)) ->
  onlyWhiteSpace r -> trimEnd (n ++ r) = n.
Proof.
  induction n as [|c n IH]; intros Hn Hr.
  - apply trimEnd_onlyWhiteSpace, Hr.
  - cbn [append trimEnd].
    destruct (trimStart (String c (n ++ r)) =? "")%string eqn:E.
    + exfalso. apply String.eqb_eq, trimStart_empty_iff in E.
      apply (Hn EmptyString (String c n)); [reflexivity | discriminate | exact E].
    + f_equal. apply IH; [|exact Hr].
      intros p q -> Hq. apply (Hn (String c p) q); [reflexivity | exact Hq].
Qed.

Lemma trimEnd_trimmed (n r : string) :
  trimmed n -> onlyWhiteSpace r -> trimEnd (n ++ r) = n.
Proof.
  intros Hn Hr. apply trimEnd_trailing; [|exact Hr].
  intros p q -> Hq H.
  pose proof (onlyWhiteSpace_start (q ++ r) H q r eq_refl Hr) as Hws.
  destruct (onlyWhiteSpace_last q Hws Hq) as (rest & w & Hw & ->).
  apply (proj2 (Hn w (p ++ rest) Hw)). symmetry. apply append_assoc.
Qed.

(** [trim s] is the only string that [s] is, white space at both ends
    apart, and that neither starts nor ends with white space. *)
Lemma trimmedOf_unique (s n : string) : trimmedOf s n -> n = trim s.
Proof.
  intros [(l & r & -> & Hl & Hr) Hn]. unfold trim.
  rewrite (trimStart_leading l _ Hl). destruct n as [|c n].
  - cbn [append]. apply trimStart_empty_iff in Hr. rewrite Hr. reflexivity.
  - rewrite (trimStart_trimmed _ r Hn) by (discriminate || exact Hr).
    symmetry. apply trimEnd_trimmed; assumption.
Qed.

Lemma trimmed_trim (n : string) : trimmed n -> trim n = n.
Proof.
  intros Hn. symmetry. apply trimmedOf_unique. split; [|exact Hn].
  exists EmptyString, EmptyString. rewrite append_nil_r.
  split; [reflexivity | split; constructor].
Qed.

Lemma isUpper_range (c : ascii) :
  isUpper c = true <-> (65 <= nat_of_ascii c <= 90)%nat.
Proof.
  unfold isUpper. cbv zeta. rewrite andb_true_iff, !Nat.leb_le. tauto.
Qed.

Lemma lowerChar_code (c : ascii) :
  isUpper c = true -> nat_of_ascii (lowerChar c) = (nat_of_ascii c + 32)%nat.
Proof.
  intros H. unfold lowerChar. rewrite H.
  apply isUpper_range in H. apply nat_ascii_embedding. lia.
Qed.

Lemma lowerChar_not_upper (c : ascii) : isUpper (lowerChar c) = false.
Proof.
  destruct (isUpper c) eqn:E.
  - apply not_true_is_false. intros H. apply isUpper_range in H.
    rewrite (lowerChar_code c E) in H. apply isUpper_range in E. lia.
  - unfold lowerChar. rewrite E. exact E.
Qed.

Lemma lowerChar_idempotent (c : ascii) : lowerChar (lowerChar c) = lowerChar c.
Proof.
  unfold lowerChar at 1. rewrite lowerChar_not_upper. reflexivity.
Qed.

Lemma lowerChar_eq_iff (c d : ascii) :
  lowerChar c = lowerChar d <-> sameLetter c d.
Proof.
  unfold sameLetter. split.
  - intros H. destruct (isUpper c) eqn:Ec, (isUpper d) eqn:Ed.
    + left. apply (f_equal nat_of_ascii) in H.
      rewrite (lowerChar_code c Ec), (lowerChar_code d Ed) in H.
      rewrite <- (ascii_nat_embedding c), <- (ascii_nat_embedding d).
      f_equal. lia.
    + right. left. split; [reflexivity|].
      rewrite H. unfold lowerChar. rewrite Ed. reflexivity.
    + right. right. split; [reflexivity|].
      rewrite <- H. unfold lowerChar. rewrite Ec. reflexivity.
    + left. unfold lowerChar in H. rewrite Ec, Ed in H. exact H.
  - intros [-> | [[_ ->] | [_ ->]]].
    + reflexivity.
    + symmetry. apply lowerChar_idempotent.
    + apply lowerChar_idempotent.
Qed.

(** On ASCII names the comparison of the handlers,
    [a.toLowerCase() === b.toLowerCase()], is equality ignoring case. *)
Lemma asciiLowerCase_eq_iff (s t : string) :
  asciiLowerCase s = asciiLowerCase t <-> equalIgnoringCase s t.
Proof.
  revert t. induction s as [|c s IH]; intros [|d t]; cbn;
    try (split; [discriminate | contradiction]).
  - tauto.
  - rewrite <- IH, <- lowerChar_eq_iff. split.
    + intros H. injection H as H1 H2. split; assumption.
    + intros [H1 H2]. rewrite H1, H2. reflexivity.
Qed.

Lemma kept_rounds (rs : list Round) :
  (if (0 <? List.length rs)%nat then rs else []) = rs.
Proof. destruct rs; reflexivity. Qed.

(** C8.  Each input has one name after trimming white space, the input
    without the white space at its two ends; it is what [trim] returns, and
    it is empty exactly when the input is white space only.  With these
    names, onboarding and the settings update are rejected with
    [InvalidConfig] if and only if one of them is empty or the two are
    equal ignoring case, which is how [toLowerCase] compares them and, on
    ASCII names, the same letters position by position; a rejection changes
    nothing of the aggregate; on success the trimmed names are stored.
    Onboarding marks the configuration as done, the settings update leaves
    that mark alone. *)
Theorem config_validation (toLowerCase : string -> string) (app : App) :
  (exists a b,
     trimmedOf (teamAInput app) a /\ trimmedOf (teamBInput app) b)
  /\ forall a b,
       trimmedOf (teamAInput app) a -> trimmedOf (teamBInput app) b ->
       a = trim (teamAInput app)
       /\ b = trim (teamBInput app)
       /\ (a = EmptyString <-> onlyWhiteSpace (teamAInput app))
       /\ (b = EmptyString <-> onlyWhiteSpace (teamBInput app))
       /\ (lowersAscii toLowerCase -> isAscii a = true -> isAscii b = true ->
           (toLowerCase a = toLowerCase b <-> equalIgnoringCase a b))
       /\ configContract toLowerCase (saveOnboarding toLowerCase) app a b
       /\ configContract toLowerCase (saveSettings toLowerCase) app a b
       /\ (~ InvalidConfig (saveOnboarding toLowerCase app) ->
           onboardingDone (state (saveOnboarding toLowerCase app)) = true)
       /\ onboardingDone (state (saveSettings toLowerCase app))
          = onboardingDone (state app).
Proof.
  split.
  { exists (trim (teamAInput app)), (trim (teamBInput app)).
    split; apply trim_trimmedOf. }
  intros a b Ha Hb.
  apply trimmedOf_unique in Ha, Hb. subst a b.
  split; [reflexivity|]. split; [reflexivity|].
  split; [apply trim_empty_iff|]. split; [apply trim_empty_iff|].
  split.
  { intros HL Ia Ib. rewrite (HL _ Ia), (HL _ Ib).
    apply asciiLowerCase_eq_iff. }
  assert (Hmsg1 : ERR_NAMES_MISSING <> EmptyString) by discriminate.
  assert (Hmsg2 : ERR_NAMES_EQUAL <> EmptyString) by discriminate.
  assert (Hmsg3 : ERR_NAMES_MISSING <> ERR_NAMES_EQUAL) by discriminate.
  unfold configContract, InvalidConfig, saveOnboarding, saveSettings.
  cbv zeta.
  rewrite <- (String.eqb_eq (trim (teamAInput app)) EmptyString).
  rewrite <- (String.eqb_eq (trim (teamBInput app)) EmptyString).
  rewrite <- (String.eqb_eq (toLowerCase (trim (teamAInput app)))).
  destruct (trim (teamAInput app) =? "")%string;
    destruct (trim (teamBInput app) =? "")%string;
    destruct (toLowerCase (trim (teamAInput app))
              =? toLowerCase (trim (teamBInput app)))%string;
    cbn [orb setError setState setSettingsOpen state error teamAName
         teamBName doubleFirstHand rounds winsA winsB onboardingDone];
    rewrite ?kept_rounds;
    split_all;
    try reflexivity;
    try (intros _; reflexivity);
    try (intros _; auto; fail);
    try (intros H; contradiction H; auto; fail);
    try (intros [H | H]; first [discriminate H | symmetry in H; contradiction]);
    try (intros [H | [H | H]]; discriminate H);
    try (intros _; split_all; reflexivity);
    try (split; intros H;
         [ first [ left; reflexivity | right; left; reflexivity
                 | right; right; reflexivity
                 | destruct H as [H | H]; discriminate H ]
         | first [ left; reflexivity | right; reflexivity
                 | destruct H as [H | [H | H]]; discriminate H ] ]).
Qed.

Lemma config_validation_witness :
  InvalidConfig
    (saveOnboarding asciiLowerCase
       (setTeamBInput "rojos "
          (setTeamAInput (utf8 160 ++ "Rojos") (initialApp defaultState)))).
Proof.
  set (app := setTeamBInput "rojos "
                (setTeamAInput (utf8 160 ++ "Rojos") (initialApp defaultState))).
  destruct (config_validation asciiLowerCase app) as [_ H].
  destruct (H "Rojos" "rojos")
    as (_ & _ & _ & _ & Hcase & (Hrejected & _) & _).
  - exact (trim_trimmedOf (utf8 160 ++ "Rojos")).
  - exact (trim_trimmedOf "rojos ").
  - apply Hrejected. right. right. apply Hcase.
    + intros s _. reflexivity.
    + reflexivity.
    + reflexivity.
    + apply asciiLowerCase_eq_iff. reflexivity.
Defined.

(** The example of the specification, "Rojos" against "rojos", whatever
    [toLowerCase] does beyond ASCII; and a name that is a no-break space
    only. *)
Example rojos_rejected (toLowerCase : string -> string) :
  lowersAscii toLowerCase ->
  InvalidConfig
    (saveOnboarding toLowerCase
       (setTeamBInput "rojos" (setTeamAInput "Rojos" (initialApp defaultState))))
  /\ InvalidConfig
       (saveSettings toLowerCase
          (setTeamBInput "rojos " (setTeamAInput " Rojos" onboarded)))
  /\ InvalidConfig
       (saveSettings toLowerCase
          (setTeamBInput "Azules" (setTeamAInput (utf8 160) onboarded))).
Proof.
  intros HL.
  assert (T1 : trim "Rojos" = "Rojos") by (vm_compute; reflexivity).
  assert (T2 : trim "rojos" = "rojos") by (vm_compute; reflexivity).
  assert (T3 : trim " Rojos" = "Rojos") by (vm_compute; reflexivity).
  assert (T4 : trim "rojos " = "rojos") by (vm_compute; reflexivity).
  assert (T5 : trim (utf8 160) = "") by (vm_compute; reflexivity).
  unfold saveOnboarding, saveSettings.
  cbn [setTeamAInput setTeamBInput teamAInput teamBInput].
  rewrite T1, T2, T3, T4, T5.
  rewrite (HL "Rojos"), (HL "rojos") by reflexivity.
  split_all; [right | right | left]; reflexivity.
Qed.

(** ** Reachable states *)

(** What a handler can do to the ledger. *)
Lemma addRound_rounds Number now app :
  let st := state app in
  let after := addRound Number now app in
  rounds (state after) = rounds st
  \/ rounds (state after) = []
  \/ exists x y, rounds (state after) = (rounds st ++ [nextRound st now x y])%list.
Proof.
  intros st after. unfold after, addRound.
  cbn [setError roundA roundB state].
  destruct (negb _ || negb _ || lt0 _ || lt0 _); [left; reflexivity|].
  destruct (is0 _ && is0 _); [left; reflexivity|].
  cbv zeta. destruct (aWon _ || bWon _).
  - right. left. reflexivity.
  - right. right. eexists. eexists. reflexivity.
Qed.

Lemma config_rounds toLowerCase (app : App) :
  rounds (state (saveOnboarding toLowerCase app)) = rounds (state app)
  /\ rounds (state (saveSettings toLowerCase app)) = rounds (state app).
Proof.
  unfold saveOnboarding, saveSettings. cbv zeta.
  destruct (_ || _); [split; reflexivity|].
  destruct (_ =? _)%string; [split; reflexivity|].
  split; [|reflexivity].
  cbn [setError setState state rounds]. apply kept_rounds.
Qed.

Lemma handle_rounds Number toLowerCase app ev :
  let st := state app in
  let after := handle Number toLowerCase app ev in
  rounds (state after) = rounds st
  \/ rounds (state after) = []
  \/ rounds (state after) = firstn (List.length (rounds st) - 1) (rounds st)
  \/ exists now x y,
       ev = AddRound now
       /\ rounds (state after) = (rounds st ++ [nextRound st now x y])%list.
Proof.
  intros st after. unfold after. destruct ev; cbn [handle];
    try (left; reflexivity).
  - left. apply config_rounds.
  - left. apply config_rounds.
  - destruct (addRound_rounds Number now app) as [H | [H | (x & y & H)]].
    + left. exact H.
    + right. left. exact H.
    + right. right. right. exists now, x, y. split; [reflexivity | exact H].
  - right. right. left. reflexivity.
  - right. left. reflexivity.
Qed.

Lemma doubledOnlyFirst_firstn (rs : list Round) (n : nat) :
  doubledOnlyFirst rs -> doubledOnlyFirst (firstn n rs).
Proof.
  unfold doubledOnlyFirst. destruct rs as [|r rs]; destruct n; cbn;
    try (intros _; constructor).
  intros H. rewrite <- (firstn_skipn n rs) in H.
  apply Forall_app in H. apply H.
Qed.

Lemma doubledOnlyFirst_next (st : PersistedState) now x y :
  doubledOnlyFirst (rounds st) ->
  doubledOnlyFirst (rounds st ++ [nextRound st now x y]).
Proof.
  unfold doubledOnlyFirst, nextRound, isDoubleNow.
  destruct (rounds st) as [|r rs]; cbn [app tl].
  - intros _. constructor.
  - intros H. apply Forall_app. split; [exact H|].
    constructor; [|constructor]. cbn. apply andb_false_r.
Qed.

Lemma handle_doubledOnlyFirst Number toLowerCase app ev :
  doubledOnlyFirst (rounds (state app)) ->
  doubledOnlyFirst (rounds (state (handle Number toLowerCase app ev))).
Proof.
  intros H.
  destruct (handle_rounds Number toLowerCase app ev)
    as [E | [E | [E | (now & x & y & _ & E)]]]; rewrite E.
  - exact H.
  - constructor.
  - apply doubledOnlyFirst_firstn, H.
  - apply doubledOnlyFirst_next, H.
Qed.

Lemma run_doubledOnlyFirst Number toLowerCase evs : forall app,
  doubledOnlyFirst (rounds (state app)) ->
  doubledOnlyFirst (rounds (state (run Number toLowerCase app evs))).
Proof.
  induction evs as [|ev evs IH]; intros app H; cbn.
  - exact H.
  - apply IH, handle_doubledOnlyFirst, H.
Qed.

Lemma filter_none (rs : list Round) :
  Forall (fun r => isDouble r = false) rs -> filter isDouble rs = [].
Proof.
  induction 1 as [|r rs Hr _ IH]; cbn; [reflexivity|].
  rewrite Hr. exact IH.
Qed.

(** C10.  In every state reached from the default state by configuration,
    [addRound], [undoRound] and [resetCurrentGame], a round marked as
    doubled is the first of the ledger, and at most one round of the ledger
    is marked. *)
Theorem doubled_round_is_first Number toLowerCase (evs : list Event) :
  let ledger := rounds (state (run Number toLowerCase (initialApp defaultState) evs)) in
  (forall i r, nth_error ledger i = Some r -> isDouble r = true -> i = 0%nat)
  /\ (List.length (filter isDouble ledger) <= 1)%nat.
Proof.
  intros ledger.
  assert (H : doubledOnlyFirst ledger).
  { apply run_doubledOnlyFirst. constructor. }
  unfold doubledOnlyFirst in H. destruct ledger as [|r0 rs]; cbn in H.
  - split; [|cbn; lia]. intros [|i] r E; discriminate E.
  - split.
    + intros [|i] r E Hd; [reflexivity|]. cbn in E.
      apply nth_error_In in E. rewrite Forall_forall in H.
      rewrite (H r E) in Hd. discriminate Hd.
    + cbn. rewrite (filter_none rs H). destruct (isDouble r0); cbn; lia.
Qed.

(** ** Round identifiers *)

Lemma NoDup_app_drop_middle {A : Type} (l1 l2 l3 : list A) :
  NoDup (l1 ++ l2 ++ l3) -> NoDup (l1 ++ l3).
Proof.
  induction l2 as [|x l2 IH]; cbn; [tauto|].
  intros H. apply IH. apply NoDup_remove_1 in H. exact H.
Qed.

Lemma next_id (st : PersistedState) now x y : id (nextRound st now x y) = now.
Proof. reflexivity. Qed.

(** The identifiers of the ledger stay apart from each other and from the
    readings of the clock still to come. *)
Lemma run_ids Number toLowerCase evs : forall app,
  NoDup (map id (rounds (state app)) ++ clockReadings evs) ->
  NoDup (map id (rounds (state (run Number toLowerCase app evs)))).
Proof.
  induction evs as [|ev evs IH]; intros app H.
  - cbn in *. rewrite app_nil_r in H. exact H.
  - cbn [run fold_left]. apply IH.
    destruct (handle_rounds Number toLowerCase app ev)
      as [E | [E | [E | (now & x & y & Eev & E)]]]; rewrite E.
    + destruct ev; cbn [clockReadings] in *; try exact H.
      apply NoDup_remove_1 in H. exact H.
    + cbn [map List.app]. apply NoDup_app_remove_l in H.
      destruct ev; cbn [clockReadings] in *; try exact H.
      apply NoDup_cons_iff in H. apply H.
    + rewrite <- (firstn_skipn (List.length (rounds (state app)) - 1)
                    (rounds (state app))) in H at 1.
      rewrite map_app, <- app_assoc in H.
      apply NoDup_app_drop_middle in H.
      destruct ev; cbn [clockReadings] in *; try exact H.
      apply NoDup_remove_1 in H. exact H.
    + subst ev. cbn [clockReadings] in H.
      rewrite map_app, <- app_assoc. cbn [map List.app]. rewrite next_id.
      exact H.
Qed.

(** C9, as the code has it: the identifier of a round is the reading of the
    clock taken when it is saved, so two rounds saved on the same reading
    share their identifier. *)
Lemma same_tick_same_id :
  ~ NoDup (map id (rounds (state (run numberOfLiteral asciiLowerCase (initialApp defaultState)
                                   sameTick)))).
Proof.
  vm_compute. intros H. apply NoDup_cons_iff in H.
  destruct H as [H _]. apply H. left. reflexivity.
Qed.

(** C9, amended.  In every state reached from the default state without an
    import, the rounds of the ledger have pairwise distinct identifiers,
    provided the readings of the clock taken by the [addRound] calls are
    pairwise distinct. *)
Theorem round_ids_distinct Number toLowerCase (evs : list Event) :
  NoDup (clockReadings evs) ->
  NoDup (map id (rounds (state (run Number toLowerCase (initialApp defaultState) evs)))).
Proof.
  intros H. apply run_ids. exact H.
Qed.

Lemma round_ids_distinct_witness :
  NoDup (clockReadings twoTicks)
  /\ NoDup (map id (rounds (state (run numberOfLiteral asciiLowerCase
                                     (initialApp defaultState) twoTicks)))).
Proof.
  assert (H : NoDup (clockReadings twoTicks)).
  { cbn. constructor.
    - intros [E | []]. discriminate E.
    - constructor; [intros [] | constructor]. }
  split; [exact H|].
  apply (round_ids_distinct numberOfLiteral asciiLowerCase twoTicks H).
Defined.

(** ** The printer and the reader *)

Lemma allSpaces_app (s t : string) :
  allSpaces s -> allSpaces t -> allSpaces (s ++ t).
Proof. induction s as [|c s IH]; cbn; [tauto | intros [-> H] Ht; auto]. Qed.

Lemma allSpaces_spaces (n : nat) : allSpaces (spaces n).
Proof. induction n; cbn; auto. Qed.

Lemma skipSpace_spaces (w s : string) :
  allSpaces w -> skipSpace (w ++ s) = skipSpace s.
Proof. induction w as [|c w IH]; cbn; [reflexivity | intros [-> H]; auto]. Qed.

Lemma skipSpace_break (gap w s : string) :
  allSpaces w ->
  skipSpace ((if (gap =? "")%string then "" else newline ++ w) ++ s)
  = skipSpace s.
Proof.
  intros H. destruct (gap =? "")%string; [reflexivity|].
  cbn. apply skipSpace_spaces, H.
Qed.

Lemma skipSpace_idempotent (s : string) : skipSpace (skipSpace s) = skipSpace s.
Proof.
  induction s as [|c s IH]; cbn; [reflexivity|].
  destruct (isJsonSpace c) eqn:E; [exact IH | cbn; rewrite E; reflexivity].
Qed.

Lemma readValue_skipSpace (fuel : nat) (s : string) :
  readValue fuel (skipSpace s) = readValue fuel s.
Proof. destruct fuel; cbn; [reflexivity|]. rewrite skipSpace_idempotent. reflexivity. Qed.

Lemma readItems_skipSpace (fuel : nat) (s : string) :
  readItems fuel (skipSpace s) = readItems fuel s.
Proof. destruct fuel; cbn; [reflexivity|]. rewrite readValue_skipSpace. reflexivity. Qed.

Lemma readProps_skipSpace (fuel : nat) (s : string) :
  readProps fuel (skipSpace s) = readProps fuel s.
Proof. destruct fuel; cbn; [reflexivity|]. rewrite skipSpace_idempotent. reflexivity. Qed.

Lemma readChars_escapeChar (c : ascii) (s : string) :
  readChars (escapeChar c ++ s)
  = r <- readChars s ;; Some (String c (fst r), snd r).
Proof.
  destruct c as [[] [] [] [] [] [] [] []]; reflexivity.
Qed.

Lemma readChars_escape (s rest : string) :
  readChars (escape s ++ String dquote rest) = Some (s, rest).
Proof.
  induction s as [|c s IH].
  - reflexivity.
  - cbn [escape]. rewrite append_assoc, readChars_escapeChar, IH. reflexivity.
Qed.

Lemma spanDigits_app (digits rest : string) :
  allDigits digits -> noDigitAhead rest ->
  spanDigits (digits ++ rest) = (digits, rest).
Proof.
  intros Hd Hr. induction digits as [|c digits IH]; cbn [append spanDigits].
  - destruct rest as [|c rest]; [reflexivity|].
    cbn [noDigitAhead] in Hr. cbn [spanDigits]. rewrite Hr. reflexivity.
  - destruct Hd as [Hc Hd]. rewrite Hc, (IH Hd). reflexivity.
Qed.

Lemma allDigits_uint (d : uint) : allDigits (NilEmpty.string_of_uint d).
Proof. induction d; cbn; auto. Qed.

Lemma to_uint_normal (p : positive) : Pos.to_uint p = unorm (Pos.to_uint p).
Proof.
  rewrite <- (DecimalPos.Unsigned.to_of (Pos.to_uint p)).
  rewrite DecimalPos.Unsigned.of_to. reflexivity.
Qed.

Lemma to_uint_no_leading_zero (p : positive) (d : uint) : Pos.to_uint p <> D0 d.
Proof.
  intros H. pose proof (to_uint_normal p) as Hn. unfold unorm in Hn.
  destruct (nzhead (Pos.to_uint p)) eqn:E.
  - apply (DecimalPos.Unsigned.to_uint_nonzero p). exact Hn.
  - rewrite H in Hn. injection Hn as Hn. subst.
    apply (DecimalFacts.nzhead_nonzero _ _ E).
  - rewrite H in Hn. discriminate Hn.
  - rewrite H in Hn. discriminate Hn.
  - rewrite H in Hn. discriminate Hn.
  - rewrite H in Hn. discriminate Hn.
  - rewrite H in Hn. discriminate Hn.
  - rewrite H in Hn. discriminate Hn.
  - rewrite H in Hn. discriminate Hn.
  - rewrite H in Hn. discriminate Hn.
  - rewrite H in Hn. discriminate Hn.
Qed.

Lemma readValue_number (fuel : nat) (c : ascii) (tail : string) :
  numberStart c = true ->
  readValue (S fuel) (String c tail) = readNumber (String c tail).
Proof.
  destruct c as [[] [] [] [] [] [] [] []]; try discriminate; reflexivity.
Qed.

(** The digits of a positive number: at least one, the first not a zero. *)
Lemma positive_text (p : positive) :
  exists c tail,
    NilZero.string_of_uint (Pos.to_uint p) = String c tail
    /\ isDigit c = true /\ (c =? "-")%char = false /\ (c =? "0")%char = false
    /\ allDigits tail.
Proof.
  pose proof (to_uint_no_leading_zero p) as Hz.
  pose proof (allDigits_uint (Pos.to_uint p)) as Hd.
  destruct (Pos.to_uint p) as [|d|d|d|d|d|d|d|d|d|d] eqn:E.
  - exfalso. apply (DecimalPos.Unsigned.to_uint_nonnil p E).
  - exfalso. apply (Hz d). reflexivity.
  - eexists. eexists. cbn. split; [reflexivity|]. cbn in Hd. repeat split; apply Hd.
  - eexists. eexists. cbn. split; [reflexivity|]. cbn in Hd. repeat split; apply Hd.
  - eexists. eexists. cbn. split; [reflexivity|]. cbn in Hd. repeat split; apply Hd.
  - eexists. eexists. cbn. split; [reflexivity|]. cbn in Hd. repeat split; apply Hd.
  - eexists. eexists. cbn. split; [reflexivity|]. cbn in Hd. repeat split; apply Hd.
  - eexists. eexists. cbn. split; [reflexivity|]. cbn in Hd. repeat split; apply Hd.
  - eexists. eexists. cbn. split; [reflexivity|]. cbn in Hd. repeat split; apply Hd.
  - eexists. eexists. cbn. split; [reflexivity|]. cbn in Hd. repeat split; apply Hd.
  - eexists. eexists. cbn. split; [reflexivity|]. cbn in Hd. repeat split; apply Hd.
Qed.

Lemma leadingZero_nonzero (c : ascii) (tail : string) :
  (c =? "0")%char = false -> leadingZero (String c tail) = false.
Proof. intros H. destruct tail; cbn; [reflexivity | exact H]. Qed.

Lemma int_of_string_to_int (z : Z) :
  NilZero.int_of_string (NilZero.string_of_int (Z.to_int z)) = Some (Z.to_int z).
Proof.
  apply NilZero.isi; destruct z; cbn; try discriminate;
    intros H; injection H as H; apply (DecimalPos.Unsigned.to_uint_nonnil _ H).
Qed.

Lemma digit_not_minus (c : ascii) : isDigit c = true -> (c =? "-")%char = false.
Proof. destruct c as [[] [] [] [] [] [] [] []]; try discriminate; reflexivity. Qed.

Lemma readNumber_unsigned (c : ascii) (tail rest : string) (d : Decimal.int) :
  isDigit c = true -> allDigits tail ->
  leadingZero (String c tail) = false ->
  noDigitAhead rest ->
  NilZero.int_of_string (String c tail) = Some d ->
  readNumber (String c tail ++ rest) = Some (JNum (Int (Z.of_int d)), rest).
Proof.
  intros Hc Ht Hz Hr Hd. unfold readNumber. cbn [append].
  rewrite (digit_not_minus c Hc). cbn [snd fst].
  change (String c (tail ++ rest)) with (String c tail ++ rest)%string.
  rewrite spanDigits_app by (cbn [allDigits]; auto).
  rewrite Hz. cbn [append]. rewrite Hd. reflexivity.
Qed.

Lemma readNumber_negative (c : ascii) (tail rest : string) (d : Decimal.int) :
  isDigit c = true -> allDigits tail ->
  leadingZero (String c tail) = false ->
  noDigitAhead rest ->
  NilZero.int_of_string (String "-" (String c tail)) = Some d ->
  readNumber (String "-" (String c tail) ++ rest)
  = Some (JNum (Int (Z.of_int d)), rest).
Proof.
  intros Hc Ht Hz Hr Hd. unfold readNumber. cbn [append Ascii.eqb Bool.eqb].
  cbn [snd fst].
  change (String c (tail ++ rest)) with (String c tail ++ rest)%string.
  rewrite spanDigits_app by (cbn [allDigits]; auto).
  rewrite Hz. cbn [append]. rewrite Hd. reflexivity.
Qed.

Lemma readNumber_printed (z : Z) (rest : string) :
  noDigitAhead rest ->
  readNumber (printNumber (Int z) ++ rest) = Some (JNum (Int z), rest).
Proof.
  intros Hr. pose proof (int_of_string_to_int z) as Hi.
  rewrite <- (DecimalZ.of_to z) at 2.
  unfold printNumber in *. destruct z as [|p|p].
  - apply readNumber_unsigned; first [reflexivity | exact I | exact Hr].
  - cbn [Z.to_int NilZero.string_of_int] in *.
    destruct (positive_text p) as (c & tail & E & Hc & Hm & H0 & Ht).
    rewrite E in *.
    apply readNumber_unsigned; auto using leadingZero_nonzero.
  - cbn [Z.to_int NilZero.string_of_int] in *.
    destruct (positive_text p) as (c & tail & E & Hc & Hm & H0 & Ht).
    rewrite E in *.
    apply readNumber_negative; auto using leadingZero_nonzero.
Qed.

Lemma printNumber_start (z : Z) :
  exists c tail, printNumber (Int z) = String c tail /\ numberStart c = true.
Proof.
  unfold printNumber. destruct z as [|p|p]; cbn [Z.to_int NilZero.string_of_int].
  - eexists. eexists. split; reflexivity.
  - destruct (positive_text p) as (c & tail & E & Hc & _).
    exists c, tail. split; [exact E|]. unfold numberStart. rewrite Hc. reflexivity.
  - eexists. eexists. split; reflexivity.
Qed.

Lemma valueStart_facts (c : ascii) :
  valueStart c = true ->
  isJsonSpace c = false /\ (c =? "]")%char = false /\ (c =? "}")%char = false.
Proof.
  destruct c as [[] [] [] [] [] [] [] []]; try discriminate; repeat split.
Qed.

Lemma startsValue_app (s t : string) : startsValue s -> startsValue (s ++ t).
Proof. destruct s; cbn; tauto. Qed.

Lemma printValue_start (gap indent : string) (v : value) :
  integral v -> startsValue (printValue gap indent v).
Proof.
  destruct v as [|[]|[z| | |]|s|items|props]; cbn [integral]; intros H;
    try reflexivity; try contradiction.
  - destruct (printNumber_start z) as (c & tail & E & Hc).
    cbn [printValue]. rewrite E. cbn. unfold valueStart. rewrite Hc.
    rewrite !orb_true_r. reflexivity.
  - cbn [printValue]. destruct items; reflexivity.
  - cbn [printValue]. destruct props; reflexivity.
Qed.

Lemma skipSpace_start (s : string) : startsValue s -> skipSpace s = s.
Proof.
  destruct s as [|c s]; cbn [startsValue]; [contradiction|].
  intros H. apply valueStart_facts in H. cbn. destruct H as [-> _]. reflexivity.
Qed.

Lemma noDigitAhead_more gap indent inner (c : ascii) texts rest :
  isDigit c = false ->
  noDigitAhead (printMore gap indent inner (String c "") texts ++ rest).
Proof.
  intros Hc. destruct texts as [|t r]; cbn [printMore]; [|reflexivity].
  destruct (gap =? "")%string; [exact Hc | reflexivity].
Qed.

Lemma readItems_printed gap indent :
  allSpaces gap -> allSpaces indent ->
  forall items, Forall readsBack items ->
  forall x fuel rest,
    readsBack x -> integral x ->
    fold_right (fun item acc => integral item /\ acc) True items ->
    (S (size x) + fold_right (fun item acc => S (size item) + acc) 0 items
     < fuel)%nat ->
    readItems fuel
      ((if (gap =? "")%string then "" else newline ++ indent ++ gap)
       ++ printValue gap (indent ++ gap) x
       ++ printMore gap indent (indent ++ gap) "]"
            (map (printValue gap (indent ++ gap)) items)
       ++ rest)
    = Some (x :: items, rest).
Proof.
  intros Hgap Hind.
  assert (Hinner : allSpaces (indent ++ gap)) by (apply allSpaces_app; assumption).
  induction 1 as [|y ys Hy Hys IH]; intros x fuel rest Hx Ix Is Hf;
    (destruct fuel as [|fuel]; [lia|]); cbn [readItems].
  - rewrite <- readValue_skipSpace, skipSpace_break by exact Hinner.
    rewrite readValue_skipSpace.
    rewrite (Hx gap (indent ++ gap) fuel) ; auto;
      [| cbn in Hf; lia | apply noDigitAhead_more; reflexivity].
    cbn [bind fst snd map printMore].
    rewrite append_assoc, skipSpace_break by exact Hind.
    reflexivity.
  - rewrite <- readValue_skipSpace, skipSpace_break by exact Hinner.
    rewrite readValue_skipSpace.
    cbn [fold_right] in Hf, Is. destruct Is as [Iy Is].
    rewrite (Hx gap (indent ++ gap) fuel) ; auto;
      [| lia | apply noDigitAhead_more; reflexivity].
    cbn [bind fst snd map printMore].
    rewrite !append_assoc. cbn [append skipSpace].
    change (isJsonSpace ",") with false. cbv iota.
    change (("," =? ",")%char) with true. cbv iota.
    rewrite (IH y fuel rest Hy Iy Is) by lia.
    reflexivity.
Qed.

Lemma skipSpace_colon gap s :
  skipSpace ((if (gap =? "")%string then ":" else ": ") ++ s)
  = String ":" (if (gap =? "")%string then s else String " " s).
Proof. destruct (gap =? "")%string; reflexivity. Qed.

Lemma readValue_after_colon gap fuel s :
  readValue fuel (if (gap =? "")%string then s else String " " s)
  = readValue fuel s.
Proof.
  destruct (gap =? "")%string; [reflexivity|].
  rewrite <- readValue_skipSpace. cbn [skipSpace].
  change (isJsonSpace " ") with true. cbv iota. apply readValue_skipSpace.
Qed.

Lemma readProps_printed gap indent :
  allSpaces gap -> allSpaces indent ->
  forall props, Forall (fun kv => readsBack (snd kv)) props ->
  forall k x fuel rest,
    readsBack x -> integral x ->
    fold_right (fun kv acc => integral (snd kv) /\ acc) True props ->
    (S (size x) + fold_right (fun kv acc => S (size (snd kv)) + acc) 0 props
     < fuel)%nat ->
    readProps fuel
      ((if (gap =? "")%string then "" else newline ++ indent ++ gap)
       ++ printProp gap k (printValue gap (indent ++ gap) x)
       ++ printMore gap indent (indent ++ gap) "}"
            (map (fun kv =>
                    printProp gap (fst kv)
                      (printValue gap (indent ++ gap) (snd kv))) props)
       ++ rest)
    = Some ((k, x) :: props, rest).
Proof.
  intros Hgap Hind.
  assert (Hinner : allSpaces (indent ++ gap)) by (apply allSpaces_app; assumption).
  induction 1 as [|[k' y] ys Hy Hys IH]; intros k x fuel rest Hx Ix Is Hf;
    (destruct fuel as [|fuel]; [lia|]); cbn [readProps];
    rewrite skipSpace_break by exact Hinner;
    unfold printProp at 1, quote; rewrite !append_assoc;
    cbn [append skipSpace];
    change (isJsonSpace dquote) with false; cbv iota;
    rewrite !append_assoc; cbn [append];
    rewrite Ascii.eqb_refl, readChars_escape;
    cbn [bind fst snd append];
    rewrite skipSpace_colon, Ascii.eqb_refl, readValue_after_colon.
  - rewrite (Hx gap (indent ++ gap) fuel) ; auto;
      [| cbn in Hf; lia | apply noDigitAhead_more; reflexivity].
    cbn [bind fst snd map printMore].
    rewrite append_assoc, skipSpace_break by exact Hind.
    reflexivity.
  - cbn [fold_right snd] in Hf, Is. destruct Is as [Iy Is].
    rewrite (Hx gap (indent ++ gap) fuel) ; auto;
      [| lia | apply noDigitAhead_more; reflexivity].
    cbn [bind fst snd map printMore].
    rewrite !append_assoc. cbn [append skipSpace].
    change (isJsonSpace ",") with false. cbv iota.
    change (("," =? ",")%char) with true. cbv iota.
    rewrite (IH k' y fuel rest Hy Iy Is) by lia.
    reflexivity.
Qed.

Theorem readValue_printValue (v : value) : readsBack v.
Proof.
  induction v as [|b|n|s|items IH|props IH] using value_induction;
    intros gap indent fuel rest Hgap Hind Iv Hf Hr;
    (destruct fuel as [|fuel]; [cbn in Hf; lia|]).
  - reflexivity.
  - destruct b; reflexivity.
  - destruct n as [z| | |]; try contradiction.
    cbn [printValue].
    destruct (printNumber_start z) as (c & tail & E & Hc).
    pose proof (readNumber_printed z rest Hr) as Hn.
    rewrite E in *. cbn [append]. rewrite readValue_number by exact Hc.
    exact Hn.
  - cbn [printValue]. unfold quote. cbn [append readValue skipSpace].
    change (isJsonSpace dquote) with false. cbv iota.
    change ((dquote =? "n")%char) with false.
    change ((dquote =? "t")%char) with false.
    change ((dquote =? "f")%char) with false.
    change ((dquote =? dquote)%char) with true. cbv iota.
    rewrite append_assoc. cbn [append]. rewrite readChars_escape. reflexivity.
  - destruct items as [|x xs]; [reflexivity|].
    cbn [printValue printList map]. rewrite !append_assoc.
    cbn [append readValue skipSpace].
    change (isJsonSpace "[") with false. cbv iota.
    change (("[" =? "n")%char) with false.
    change (("[" =? "t")%char) with false.
    change (("[" =? "f")%char) with false.
    change (("[" =? dquote)%char) with false.
    change (("[" =? "[")%char) with true. cbv iota.
    inversion IH as [|x' xs' Hx Hxs]; subst.
    cbn [integral fold_right] in Iv. destruct Iv as [Ix Is].
    cbn [size fold_right] in Hf.
    rewrite skipSpace_break by (apply allSpaces_app; assumption).
    pose proof (printValue_start gap (indent ++ gap) x Ix) as Hstart.
    apply (startsValue_app _
             (printMore gap indent (indent ++ gap) "]"
                (map (printValue gap (indent ++ gap)) xs) ++ rest)) in Hstart.
    rewrite (skipSpace_start _ Hstart).
    destruct (printValue gap (indent ++ gap) x ++ _)%string as [|c t] eqn:E;
      [contradiction|].
    cbn [startsValue] in Hstart. apply valueStart_facts in Hstart.
    destruct Hstart as (_ & -> & _). rewrite <- E.
    rewrite (readItems_printed gap indent Hgap Hind xs Hxs x fuel rest Hx Ix Is)
      by lia.
    reflexivity.
  - destruct props as [|[k x] xs]; [reflexivity|].
    cbn [printValue printList map fst snd]. rewrite !append_assoc.
    cbn [append readValue skipSpace].
    change (isJsonSpace "{") with false. cbv iota.
    change (("{" =? "n")%char) with false.
    change (("{" =? "t")%char) with false.
    change (("{" =? "f")%char) with false.
    change (("{" =? dquote)%char) with false.
    change (("{" =? "[")%char) with false.
    change (("{" =? "{")%char) with true. cbv iota.
    inversion IH as [|x' xs' Hx Hxs]; subst. cbn [snd] in Hx.
    cbn [integral fold_right snd] in Iv. destruct Iv as [Ix Is].
    cbn [size fold_right snd] in Hf.
    rewrite skipSpace_break by (apply allSpaces_app; assumption).
    assert (Hstart :
      startsValue
        (printProp gap k (printValue gap (indent ++ gap) x)
         ++ printMore gap indent (indent ++ gap) "}"
              (map (fun kv =>
                      printProp gap (fst kv)
                        (printValue gap (indent ++ gap) (snd kv))) xs)
         ++ rest)) by reflexivity.
    rewrite (skipSpace_start _ Hstart).
    destruct (printProp gap k (printValue gap (indent ++ gap) x) ++ _)%string
      as [|c t] eqn:E; [contradiction|].
    cbn [startsValue] in Hstart. apply valueStart_facts in Hstart.
    destruct Hstart as (_ & _ & ->). rewrite <- E.
    rewrite (readProps_printed gap indent Hgap Hind xs Hxs k x fuel rest
               Hx Ix Is) by lia.
    reflexivity.
Qed.

Lemma printMore_length gap indent inner closer (texts : list string) :
  (fold_right (fun t acc => S (String.length t) + acc) (String.length closer) texts
   <= String.length (printMore gap indent inner closer texts))%nat.
Proof.
  induction texts as [|t r IH]; cbn [printMore fold_right].
  - rewrite length_append. lia.
  - rewrite !length_append. cbn [String.length]. lia.
Qed.

Lemma sum_shift {A : Type} (f : A -> nat) (l : list A) (n : nat) :
  fold_right (fun x acc => S (f x) + acc)%nat n l
  = (fold_right (fun x acc => S (f x) + acc)%nat 0 l + n)%nat.
Proof.
  induction l as [|x l IH]; cbn [fold_right]; [reflexivity | rewrite IH; lia].
Qed.

Lemma printList_length gap indent (o c : ascii) (texts : list string) :
  (S (fold_right (fun t acc => S (String.length t) + acc) 0 texts)
   <= String.length
        (printList gap indent (String o "") (String c "") texts))%nat.
Proof.
  destruct texts as [|t r]; cbn [printList fold_right].
  - cbn. lia.
  - rewrite !length_append. cbn [String.length].
    pose proof (printMore_length gap indent (indent ++ gap) (String c "") r) as H.
    rewrite sum_shift in H. cbn [String.length] in H. lia.
Qed.

Lemma sum_map_le {A : Type} (f : A -> nat) (g : A -> string) (l : list A) :
  Forall (fun x => f x <= String.length (g x))%nat l ->
  (fold_right (fun x acc => S (f x) + acc) 0 l
   <= fold_right (fun t acc => S (String.length t) + acc) 0 (map g l))%nat.
Proof. induction 1 as [|x l Hx _ IH]; cbn [fold_right map]; lia. Qed.

Lemma size_le_length (v : value) :
  forall gap indent, (size v <= String.length (printValue gap indent v))%nat.
Proof.
  induction v as [|b|n|s|items IH|props IH] using value_induction;
    intros gap indent.
  - cbn. lia.
  - destruct b; cbn; lia.
  - destruct n as [z| | |]; try (cbn; lia).
    destruct (printNumber_start z) as (c & tail & E & _).
    cbn [printValue size]. rewrite E. cbn. lia.
  - cbn. lia.
  - cbn [printValue size].
    etransitivity; [|apply printList_length].
    apply le_n_S, sum_map_le.
    rewrite Forall_forall in *. intros x Hx. apply (IH x Hx).
  - cbn [printValue size].
    etransitivity; [|apply printList_length].
    apply le_n_S.
    apply (sum_map_le (fun kv => size (snd kv))
             (fun kv => printProp gap (fst kv)
                          (printValue gap (indent ++ gap) (snd kv)))).
    rewrite Forall_forall in *. intros kv Hkv.
    unfold printProp. rewrite !length_append.
    pose proof (IH kv Hkv gap (indent ++ gap)). lia.
Qed.

(** The reader reads back what the printer printed, whatever the
    indentation, for every value whose numbers are integers. *)
Theorem readJSON_printJSON (v : value) (space : nat) :
  integral v -> readJSON (printJSON v space) = Some v.
Proof.
  intros Iv. unfold readJSON, printJSON.
  rewrite <- (append_nil_r (printValue (spaces space) "" v)) at 2.
  rewrite (readValue_printValue v (spaces space) "").
  - reflexivity.
  - apply allSpaces_spaces.
  - exact I.
  - exact Iv.
  - pose proof (size_le_length v (spaces space) ""). lia.
  - exact I.
Qed.

Lemma integral_toValue (s : PersistedState) : integral (toValue s).
Proof.
  cbn. repeat split.
  induction (rounds s) as [|r rs IH]; cbn; [exact I|].
  repeat split. exact IH.
Qed.

Theorem readJSON_toValue (s : PersistedState) (space : nat) :
  readJSON (printJSON (toValue s) space) = Some (toValue s).
Proof. apply readJSON_printJSON, integral_toValue. Qed.

(** ** The store *)

Lemma asRounds_toValue (rs : list Round) :
  asRounds (map roundToValue rs) = Some rs.
Proof.
  induction rs as [|r rs IH]; cbn [map asRounds]; [reflexivity|].
  rewrite IH. destruct r. reflexivity.
Qed.

(** The object of an aggregate passes the shape check of the code, passes
    the shape check of the specification, and reads back as the aggregate. *)
Lemma isValidState_toValue (s : PersistedState) : isValidState (toValue s) = true.
Proof. reflexivity. Qed.

Lemma spec_roundShaped_toValue (rs : list Round) :
  forallb spec_roundShaped (map roundToValue rs) = true.
Proof. induction rs as [|r rs IH]; cbn; [reflexivity | exact IH]. Qed.

Lemma spec_shapeCheck_toValue (s : PersistedState) :
  spec_shapeCheck (toValue s) = true.
Proof.
  unfold spec_shapeCheck, toValue. cbn.
  rewrite spec_roundShaped_toValue. reflexivity.
Qed.

Lemma asPersistedState_toValue (s : PersistedState) :
  asPersistedState (toValue s) = Some s.
Proof.
  unfold asPersistedState, toValue. cbn.
  rewrite asRounds_toValue. destruct s. reflexivity.
Qed.

(** Whatever the specification's shape check accepts, the code accepts. *)
Lemma spec_shapeCheck_isValidState (v : value) :
  spec_shapeCheck v = true -> isValidState v = true.
Proof.
  destruct v as [| | | | |props]; try discriminate.
  unfold spec_shapeCheck, isValidState. cbn [falsy typeof orb negb String.eqb].
  cbn [Ascii.eqb Bool.eqb andb negb orb].
  intros H. repeat (apply andb_prop in H; destruct H as [H ?]).
  repeat (apply andb_true_intro; split); try assumption.
  destruct (prop (JObj props) "rounds") as [[| | | | |]|];
    try discriminate; reflexivity.
Qed.

(** X1.  What the code checks, field by field: the ledger has to be an array and
    nothing is asked of what it holds. *)
Lemma isValidState_iff (v : value) :
  isValidState v = true <->
  exists props,
    v = JObj props
    /\ typeof (lookup "onboardingDone" props) = "boolean"
    /\ typeof (lookup "teamAName" props) = "string"
    /\ typeof (lookup "teamBName" props) = "string"
    /\ typeof (lookup "doubleFirstHand" props) = "boolean"
    /\ (exists items, lookup "rounds" props = Some (JArr items))
    /\ typeof (lookup "winsA" props) = "number"
    /\ typeof (lookup "winsB" props) = "number".
Proof.
  split.
  - destruct v as [|bv|n|sv|items|props].
    + discriminate.
    + unfold isValidState. cbn. rewrite orb_true_r. discriminate.
    + unfold isValidState. cbn [typeof String.eqb Ascii.eqb Bool.eqb negb].
      rewrite orb_true_r. discriminate.
    + unfold isValidState. cbn [typeof String.eqb Ascii.eqb Bool.eqb negb].
      rewrite orb_true_r. discriminate.
    + discriminate.
    + unfold isValidState. cbn [falsy typeof String.eqb Ascii.eqb Bool.eqb
                                  negb orb andb prop].
      intros H. repeat (apply andb_prop in H; destruct H as [H ?]).
      exists props. rewrite <- !String.eqb_eq. split_all; try assumption.
      * reflexivity.
      * destruct (lookup "rounds" props) as [[| | | | items|]|];
          try discriminate. exists items. reflexivity.
  - intros (props & -> & H1 & H2 & H3 & H4 & (items & H5) & H6 & H7).
    unfold isValidState. cbn [falsy typeof String.eqb Ascii.eqb Bool.eqb
                                negb orb andb prop].
    rewrite H1, H2, H3, H4, H5, H6, H7. reflexivity.
Qed.

(** [loadInitialState] and [importData] decide on the same check: a value
    that fails [isValidState] gives the default aggregate on load and
    [InvalidBackup] on import, the aggregate in memory staying as it is. *)
Lemma shape_failure JSON_parse (text : string) (parsed : value) (app : App) :
  JSON_parse text = Some parsed ->
  isValidState parsed = false ->
  loadInitialState JSON_parse true (Some text) = Some defaultState
  /\ exists after,
       importData JSON_parse (Some text) app = Some after
       /\ InvalidBackup after
       /\ state after = state app.
Proof.
  intros Hp Hv. unfold loadInitialState, importData.
  rewrite Hp, Hv. cbn [negb]. split.
  - destruct (text =? "")%string; reflexivity.
  - eexists. split; [reflexivity|]. split; [left|]; reflexivity.
Qed.

(** Nothing stored, an empty text or a text that does not parse: the
    default aggregate on load, and on import [InvalidBackup] with the
    aggregate in memory as it was. *)
Lemma load_absent_or_malformed JSON_parse (hasWindow : bool) (text : string) :
  loadInitialState JSON_parse hasWindow None = Some defaultState
  /\ loadInitialState JSON_parse false (Some text) = Some defaultState
  /\ loadInitialState JSON_parse hasWindow (Some EmptyString) = Some defaultState
  /\ (JSON_parse text = None ->
      loadInitialState JSON_parse hasWindow (Some text) = Some defaultState).
Proof.
  unfold loadInitialState. destruct hasWindow; cbn; split_all;
    try reflexivity; intros ->; destruct (text =? "")%string; reflexivity.
Qed.

Lemma import_malformed JSON_parse (text : string) (app : App) :
  JSON_parse text = None ->
  exists after,
    importData JSON_parse (Some text) app = Some after
    /\ InvalidBackup after
    /\ state after = state app.
Proof.
  intros Hp. unfold importData. rewrite Hp.
  eexists. split; [reflexivity|]. split; [right|]; reflexivity.
Qed.

(** C4, as the code has it: a backup whose ledger holds [null] in the place
    of a round passes [isValidState], although it is no aggregate of the
    data model and fails the shape check the specification describes; so it
    is loaded instead of the default aggregate, and imported instead of
    being refused with [InvalidBackup]. *)
Theorem null_round_accepted :
  isValidState nullRoundBackup = true
  /\ spec_shapeCheck nullRoundBackup = false
  /\ asPersistedState nullRoundBackup = None
  /\ readJSON (printJSON nullRoundBackup 0) = Some nullRoundBackup
  /\ loadInitialState readJSON true (Some (printJSON nullRoundBackup 0))
     <> Some defaultState
  /\ (forall app after,
        importData readJSON (Some (printJSON nullRoundBackup 2)) app
        = Some after -> ~ InvalidBackup after).
Proof.
  split_all; try (vm_compute; reflexivity).
  - vm_compute. discriminate.
  - intros app after H. unfold importData in H.
    replace (readJSON (printJSON nullRoundBackup 2))
      with (Some nullRoundBackup) in H by (vm_compute; reflexivity).
    replace (isValidState nullRoundBackup) with true in H
      by (vm_compute; reflexivity).
    discriminate H.
Qed.

(** A document that parses to the object of an aggregate is adopted as that
    aggregate, and the form fields follow. *)
Lemma importData_adopts JSON_parse (text : string) (s : PersistedState)
    (current : App) :
  JSON_parse text = Some (toValue s) ->
  importData JSON_parse (Some text) current =
  Some {| state := s;
          teamAInput := teamAName s;
          teamBInput := teamBName s;
          doubleInput := doubleFirstHand s;
          roundA := roundA current;
          roundB := roundB current;
          error := EmptyString;
          winnerBanner := EmptyString;
          settingsOpen := settingsOpen current |}.
Proof.
  intros Hp. unfold importData.
  rewrite Hp, isValidState_toValue, asPersistedState_toValue. reflexivity.
Qed.

(** C6.  Exporting the aggregate as a snapshot and importing that snapshot
    gives back an aggregate equal to the exported one, configuration, ledger
    and win counters included, whatever the component held before; the
    snapshot is read by [JSON.parse] as the value [JSON.stringify] printed. *)
Theorem export_import_roundtrip JSON_parse JSON_stringify (app current : App) :
  JSON_parse (JSON_stringify (toValue (state app)) 2%nat)
    = Some (toValue (state app)) ->
  exists after,
    importData JSON_parse (Some (exportData JSON_stringify app)) current
      = Some after
    /\ state after = state app
    /\ teamAInput after = teamAName (state app)
    /\ teamBInput after = teamBName (state app)
    /\ doubleInput after = doubleFirstHand (state app)
    /\ error after = EmptyString
    /\ winnerBanner after = EmptyString.
Proof.
  intros Hp. unfold exportData.
  rewrite (importData_adopts JSON_parse _ (state app) current Hp).
  eexists. split; [reflexivity|]. split_all; reflexivity.
Qed.

Lemma export_import_roundtrip_witness :
  readJSON (printJSON (toValue (state midMatch)) 2) = Some (toValue (state midMatch))
  /\ exists after,
       importData readJSON (Some (exportData printJSON midMatch))
         (initialApp defaultState) = Some after
       /\ state after = state midMatch.
Proof.
  assert (H : readJSON (printJSON (toValue (state midMatch)) 2)
              = Some (toValue (state midMatch))) by (vm_compute; reflexivity).
  split; [exact H|].
  destruct (export_import_roundtrip readJSON printJSON midMatch
              (initialApp defaultState) H) as (after & Himp & Hst & _).
  exists after. split; [exact Himp | exact Hst].
Defined.

(** The round trip through the printer and the reader of this file, text
    included: the backup of any aggregate imports as that aggregate. *)
Lemma export_import_printed (app current : App) :
  exists after,
    importData readJSON (Some (exportData printJSON app)) current = Some after
    /\ state after = state app.
Proof.
  unfold exportData.
  rewrite (importData_adopts readJSON _ (state app) current
             (readJSON_toValue (state app) 2)).
  eexists. split; reflexivity.
Qed.

(** The same for the storage slot: what the effect wrote is what the next
    start of the component loads. *)
Lemma persisted_loads (app : App) :
  loadInitialState readJSON true (Some (persisted printJSON app))
  = Some (state app).
Proof.
  unfold loadInitialState, persisted. cbn [negb].
  rewrite readJSON_toValue, isValidState_toValue, asPersistedState_toValue.
  reflexivity.
Qed.

(** * Further properties of the component *)

(** ** What an event does to the aggregate *)

(** A submitted round is either refused, and then nothing but the message
    changes, or it is a validated input. *)
Lemma addRound_cases Number now app :
  (exists msg, msg <> EmptyString /\ addRound Number now app = setError msg app)
  \/ exists x y, submits Number app x y.
Proof.
  unfold addRound, submits. cbn [setError roundA roundB state].
  destruct (fieldValue Number (roundA app)) as [x| | |] eqn:EA;
    try (left; exists ERR_NOT_INTEGER; split; [discriminate | reflexivity]).
  destruct (fieldValue Number (roundB app)) as [y| | |] eqn:EB;
    try (left; exists ERR_NOT_INTEGER; split; [discriminate|];
         cbn [Number_isInteger negb orb lt0]; rewrite ?orb_true_r; reflexivity).
  cbn [Number_isInteger negb orb lt0 is0 intValue].
  destruct (x <? 0) eqn:Ex;
    [left; exists ERR_NOT_INTEGER; split; [discriminate | reflexivity]|].
  destruct (y <? 0) eqn:Ey;
    [left; exists ERR_NOT_INTEGER; split; [discriminate | reflexivity]|].
  cbn [orb].
  destruct ((x =? 0) && (y =? 0)) eqn:Ez;
    [left; exists ERR_NO_POINTS; split; [discriminate | reflexivity]|].
  right. exists x, y. apply Z.ltb_ge in Ex, Ey.
  apply andb_false_iff in Ez. rewrite !Z.eqb_neq in Ez. auto.
Qed.

(** The aggregate after an event: untouched, configured, cut down to a
    prefix of its ledger, or grown by the validated round, the last with or
    without a win. *)
Lemma handle_effect Number toLowerCase app ev :
  let st := state app in
  let st' := state (handle Number toLowerCase app ev) in
  (st' = st)
  \/ (teamAName st' = trim (teamAInput app)
      /\ teamBName st' = trim (teamBInput app)
      /\ teamAName st' <> EmptyString /\ teamBName st' <> EmptyString
      /\ toLowerCase (teamAName st') <> toLowerCase (teamBName st')
      /\ doubleFirstHand st' = doubleInput app
      /\ (onboardingDone st' = true \/ onboardingDone st' = onboardingDone st)
      /\ rounds st' = rounds st
      /\ winsA st' = winsA st /\ winsB st' = winsB st)
  \/ ((exists n, rounds st' = firstn n (rounds st))
      /\ onboardingDone st' = onboardingDone st
      /\ teamAName st' = teamAName st /\ teamBName st' = teamBName st
      /\ doubleFirstHand st' = doubleFirstHand st
      /\ winsA st' = winsA st /\ winsB st' = winsB st)
  \/ (exists now x y,
        ev = AddRound now /\ submits Number app x y
        /\ let t := sumRounds (rounds st ++ [nextRound st now x y]) in
           onboardingDone st' = onboardingDone st
           /\ teamAName st' = teamAName st /\ teamBName st' = teamBName st
           /\ doubleFirstHand st' = doubleFirstHand st
           /\ ((aWon t || bWon t = false
                /\ rounds st' = (rounds st ++ [nextRound st now x y])%list
                /\ winsA st' = winsA st /\ winsB st' = winsB st)
               \/ (aWon t || bWon t = true
                   /\ rounds st' = []
                   /\ winsA st' = (if aWon t then winsA st + 1 else winsA st)
                   /\ winsB st' = (if bWon t then winsB st + 1 else winsB st)))).
Proof.
  intros st st'. unfold st', st. destruct ev; cbn [handle];
    try (left; reflexivity).
  - (* SaveOnboarding *)
    unfold saveOnboarding. cbv zeta.
    destruct (trim (teamAInput app) =? "")%string eqn:Ea;
      [left; reflexivity|].
    destruct (trim (teamBInput app) =? "")%string eqn:Eb;
      [left; reflexivity|].
    cbn [orb].
    destruct (toLowerCase (trim (teamAInput app))
              =? toLowerCase (trim (teamBInput app)))%string eqn:El;
      [left; reflexivity|].
    right. left.
    cbn [setError setState state teamAName teamBName doubleFirstHand
         onboardingDone rounds winsA winsB].
    apply String.eqb_neq in Ea, Eb, El. rewrite kept_rounds.
    split_all; auto.
  - (* SaveSettings *)
    unfold saveSettings. cbv zeta.
    destruct (trim (teamAInput app) =? "")%string eqn:Ea;
      [left; reflexivity|].
    destruct (trim (teamBInput app) =? "")%string eqn:Eb;
      [left; reflexivity|].
    cbn [orb].
    destruct (toLowerCase (trim (teamAInput app))
              =? toLowerCase (trim (teamBInput app)))%string eqn:El;
      [left; reflexivity|].
    right. left.
    cbn [setError setState setSettingsOpen state teamAName teamBName
         doubleFirstHand onboardingDone rounds winsA winsB].
    apply String.eqb_neq in Ea, Eb, El.
    split_all; auto.
  - (* AddRound *)
    destruct (addRound_cases Number now app) as [(msg & _ & E) | (x & y & Hv)].
    + left. rewrite E. reflexivity.
    + right. right. right. exists now, x, y.
      split; [reflexivity|]. split; [exact Hv|].
      rewrite (addRound_valid Number now app x y Hv). cbv zeta.
      destruct (aWon _ || bWon _) eqn:Ew;
        cbn [state onboardingDone teamAName teamBName doubleFirstHand rounds
             winsA winsB]; split_all; try reflexivity; [right | left];
        split_all; reflexivity.
  - (* UndoRound *)
    right. right. left. unfold undoRound.
    cbn [setState state onboardingDone teamAName teamBName doubleFirstHand
         rounds winsA winsB].
    split_all; try reflexivity. eexists. reflexivity.
  - (* ResetCurrentGame *)
    right. right. left. unfold resetCurrentGame.
    cbn [setState setWinnerBanner state onboardingDone teamAName teamBName
         doubleFirstHand rounds winsA winsB].
    split_all; try reflexivity. exists 0%nat. reflexivity.
Qed.

(** A property of the aggregate kept by every event is kept by every run. *)
Lemma run_invariant Number toLowerCase (Inv : PersistedState -> Prop) :
  (forall app ev, Inv (state app) -> Inv (state (handle Number toLowerCase app ev))) ->
  forall evs app, Inv (state app) -> Inv (state (run Number toLowerCase app evs)).
Proof.
  intros Hstep. induction evs as [|ev evs IH]; intros app H; cbn.
  - exact H.
  - apply IH, Hstep, H.
Qed.

(** ** Invariants of the ledger and of the counters *)

Lemma Forall_firstn_kept {A : Type} (P : A -> Prop) (n : nat) (l : list A) :
  Forall P l -> Forall P (firstn n l).
Proof.
  intros H. rewrite <- (firstn_skipn n l) in H.
  apply Forall_app in H. apply H.
Qed.

Lemma nextRound_wellFormed st now x y :
  0 <= x -> 0 <= y -> x <> 0 \/ y <> 0 ->
  roundWellFormed (nextRound st now x y).
Proof.
  intros Hx Hy Hnz. unfold roundWellFormed, nextRound.
  cbn [rawA rawB appliedA appliedB isDouble]. split_all; auto.
Qed.

Lemma sum_nonneg (f : Round -> Z) (rs : list Round) :
  Forall (fun r => 0 <= f r) rs -> 0 <= fold_right Z.add 0 (map f rs).
Proof. induction 1 as [|r rs Hr _ IH]; cbn [map fold_right]; lia. Qed.

(** X5.  Every round of a ledger reached from the default state without an
    import is as [addRound] builds rounds: raw values that are non-negative
    and not both zero, applied values equal to the raw ones or, under
    [isDouble], to their doubles; so no score is negative and no total is. *)
Theorem ledger_rounds_wellFormed Number toLowerCase (evs : list Event) :
  let app := run Number toLowerCase (initialApp defaultState) evs in
  Forall roundWellFormed (rounds (state app))
  /\ Forall (fun r => 0 <= appliedA r /\ 0 <= appliedB r) (rounds (state app))
  /\ 0 <= a (totals app) /\ 0 <= b (totals app).
Proof.
  intros app.
  assert (H : Forall roundWellFormed (rounds (state app))).
  { unfold app.
    apply (run_invariant Number toLowerCase (fun st => Forall roundWellFormed (rounds st)));
      [|constructor].
    clear. intros app ev H.
    destruct (handle_effect Number toLowerCase app ev)
      as [E | [E | [((n & E) & _) | (now & x & y & _ & Hv & E)]]].
    - rewrite E. exact H.
    - destruct E as (_ & _ & _ & _ & _ & _ & _ & E & _). rewrite E. exact H.
    - rewrite E. apply Forall_firstn_kept, H.
    - cbv zeta in E. destruct Hv as (_ & _ & Hx & Hy & Hnz).
      destruct E as (_ & _ & _ & _ & [(_ & E & _) | (_ & E & _)]); rewrite E.
      + apply Forall_app. split; [exact H|].
        constructor; [|constructor]. apply nextRound_wellFormed; assumption.
      + constructor. }
  assert (Hpos : Forall (fun r => 0 <= appliedA r /\ 0 <= appliedB r)
                   (rounds (state app))).
  { eapply Forall_impl; [|exact H].
    intros r (HA & HB & _ & EA & EB). rewrite EA, EB.
    destruct (isDouble r); lia. }
  split; [exact H|]. split; [exact Hpos|].
  unfold totals. rewrite sumRounds_totals. cbn [a b]. split.
  - apply sum_nonneg. eapply Forall_impl; [|exact Hpos]. intros r Hr. apply Hr.
  - apply sum_nonneg. eapply Forall_impl; [|exact Hpos]. intros r Hr. apply Hr.
Qed.

Lemma neverWon_nil : neverWon [].
Proof. intros k. rewrite firstn_nil. split; reflexivity. Qed.

Lemma neverWon_firstn (n : nat) (rs : list Round) :
  neverWon rs -> neverWon (firstn n rs).
Proof. intros H k. rewrite firstn_firstn. apply H. Qed.

Lemma neverWon_snoc (rs : list Round) (r : Round) :
  neverWon rs ->
  aWon (sumRounds (rs ++ [r])) || bWon (sumRounds (rs ++ [r])) = false ->
  neverWon (rs ++ [r]).
Proof.
  intros H Hr k. destruct (Nat.le_gt_cases k (List.length rs)) as [Hk | Hk].
  - rewrite firstn_app. replace (k - List.length rs)%nat with 0%nat by lia.
    cbn [firstn]. rewrite app_nil_r. apply H.
  - rewrite firstn_all2 by (rewrite length_app; cbn; lia).
    apply orb_false_elim in Hr. exact Hr.
Qed.

(** X6.  In every state reached from the default state without an import the
    ledger is an unfinished match: neither team has 150 points or more while
    strictly ahead, on the whole ledger and on every prefix of it that undo
    can go back to; so the team shown as leading has fewer than 150
    points. *)
Theorem ledger_never_won Number toLowerCase (evs : list Event) :
  let app := run Number toLowerCase (initialApp defaultState) evs in
  (forall k,
     let t := sumRounds (firstn k (rounds (state app))) in
     ~ (a t >= 150 /\ a t > b t) /\ ~ (b t >= 150 /\ b t > a t))
  /\ ~ (a (totals app) >= 150 /\ a (totals app) > b (totals app))
  /\ ~ (b (totals app) >= 150 /\ b (totals app) > a (totals app))
  /\ (leadingTeam app = Some TeamA -> a (totals app) < 150)
  /\ (leadingTeam app = Some TeamB -> b (totals app) < 150).
Proof.
  intros app.
  assert (H : neverWon (rounds (state app))).
  { unfold app.
    apply (run_invariant Number toLowerCase (fun st => neverWon (rounds st)));
      [|apply neverWon_nil].
    clear. intros app ev H.
    destruct (handle_effect Number toLowerCase app ev)
      as [E | [E | [((n & E) & _) | (now & x & y & _ & _ & E)]]].
    - rewrite E. exact H.
    - destruct E as (_ & _ & _ & _ & _ & _ & _ & E & _). rewrite E. exact H.
    - rewrite E. apply neverWon_firstn, H.
    - cbv zeta in E.
      destruct E as (_ & _ & _ & _ & [(Hw & E & _) | (_ & E & _)]); rewrite E.
      + apply neverWon_snoc; assumption.
      + apply neverWon_nil. }
  assert (Hk : forall k,
             let t := sumRounds (firstn k (rounds (state app))) in
             ~ (a t >= 150 /\ a t > b t) /\ ~ (b t >= 150 /\ b t > a t)).
  { intros k t. destruct (H k) as [HA HB]. fold t in HA, HB.
    split; intros Hw; [apply aWon_iff in Hw; rewrite Hw in HA
                      | apply bWon_iff in Hw; rewrite Hw in HB]; discriminate. }
  pose proof (Hk (List.length (rounds (state app)))) as Hall.
  cbv zeta in Hall. rewrite firstn_all in Hall. fold (totals app) in Hall.
  destruct Hall as [HA HB].
  split; [exact Hk|]. split; [exact HA|]. split; [exact HB|].
  unfold leadingTeam. split.
  - destruct (a (totals app) >? b (totals app)) eqn:E.
    + intros _. apply Z.gtb_lt in E. lia.
    + destruct (b (totals app) >? a (totals app)); discriminate.
  - destruct (a (totals app) >? b (totals app)) eqn:E; [discriminate|].
    destruct (b (totals app) >? a (totals app)) eqn:E'; [|discriminate].
    intros _. apply Z.gtb_lt in E'. lia.
Qed.

(** X7.  The win counters never go down, whatever the events, undo and reset
    included; together they go up by at most one per submitted round, and
    not at all without one. *)
Theorem wins_only_grow Number toLowerCase (evs : list Event) (app : App) :
  let after := run Number toLowerCase app evs in
  winsA (state app) <= winsA (state after)
  /\ winsB (state app) <= winsB (state after)
  /\ (winsA (state after) + winsB (state after))
     - (winsA (state app) + winsB (state app))
     <= Z.of_nat (List.length (clockReadings evs))
  /\ (clockReadings evs = [] ->
      winsA (state after) = winsA (state app)
      /\ winsB (state after) = winsB (state app)).
Proof.
  revert app. induction evs as [|ev evs IH]; intros app after.
  - unfold after. cbn. split_all; try lia; intros _; split; reflexivity.
  - unfold after. cbn [run fold_left].
    specialize (IH (handle Number toLowerCase app ev)). cbv zeta in IH.
    fold (run Number toLowerCase (handle Number toLowerCase app ev) evs) in *.
    destruct IH as (IA & IB & IS & IE).
    destruct (handle_effect Number toLowerCase app ev)
      as [E | [E | [(_ & E) | (now & x & y & Eev & _ & E)]]].
    + rewrite E in *.
      assert (Z.of_nat (List.length (clockReadings evs))
              <= Z.of_nat (List.length (clockReadings (ev :: evs)))).
      { destruct ev; cbn [clockReadings List.length]; lia. }
      split_all; try lia.
      intros Hc. apply IE. destruct ev; cbn [clockReadings] in Hc;
        first [exact Hc | discriminate Hc].
    + destruct E as (_ & _ & _ & _ & _ & _ & _ & _ & EA & EB).
      rewrite EA, EB in *.
      assert (Z.of_nat (List.length (clockReadings evs))
              <= Z.of_nat (List.length (clockReadings (ev :: evs)))).
      { destruct ev; cbn [clockReadings List.length]; lia. }
      split_all; try lia.
      intros Hc. apply IE. destruct ev; cbn [clockReadings] in Hc;
        first [exact Hc | discriminate Hc].
    + destruct E as (_ & _ & _ & _ & EA & EB).
      rewrite EA, EB in *.
      assert (Z.of_nat (List.length (clockReadings evs))
              <= Z.of_nat (List.length (clockReadings (ev :: evs)))).
      { destruct ev; cbn [clockReadings List.length]; lia. }
      split_all; try lia.
      intros Hc. apply IE. destruct ev; cbn [clockReadings] in Hc;
        first [exact Hc | discriminate Hc].
    + subst ev. cbn [clockReadings List.length]. cbv zeta in E.
      pose proof (not_both_won
                    (sumRounds (rounds (state app)
                                ++ [nextRound (state app) now x y]))) as HAB.
      destruct E as (_ & _ & _ & _ & [(_ & _ & EA & EB) | (_ & _ & EA & EB)]);
        rewrite EA, EB in *.
      * split_all; try lia. discriminate.
      * destruct (aWon _), (bWon _); try discriminate HAB;
          split_all; try lia; discriminate.
Qed.

(** ** Invariants of the configuration *)

(** X8.  Once the configuration is done it stays done: no event brings the
    onboarding form back. *)
Theorem onboarding_stays_done Number toLowerCase (evs : list Event) (app : App) :
  onboardingDone (state app) = true ->
  onboardingDone (state (run Number toLowerCase app evs)) = true
  /\ onboardingScreen (run Number toLowerCase app evs) = false.
Proof.
  intros H.
  assert (H' : onboardingDone (state (run Number toLowerCase app evs)) = true).
  { apply (run_invariant Number toLowerCase (fun st => onboardingDone st = true));
      [|exact H].
    clear. intros app ev H.
    destruct (handle_effect Number toLowerCase app ev)
      as [E | [E | [(_ & E & _) | (now & x & y & _ & _ & E)]]].
    - rewrite E. exact H.
    - destruct E as (_ & _ & _ & _ & _ & _ & [E | E] & _); rewrite E;
        [reflexivity | exact H].
    - rewrite E. exact H.
    - cbv zeta in E. destruct E as (E & _). rewrite E. exact H. }
  split; [exact H'|]. unfold onboardingScreen. rewrite H'. reflexivity.
Qed.

Lemma onboarding_stays_done_witness :
  onboardingDone (state onboarded) = true
  /\ onboardingScreen
       (run numberOfLiteral asciiLowerCase onboarded
          [ChangeTeamA ""; SaveSettings; ResetCurrentGame; UndoRound])
     = false.
Proof.
  assert (H : onboardingDone (state onboarded) = true) by reflexivity.
  split; [exact H|].
  apply (onboarding_stays_done numberOfLiteral asciiLowerCase
           [ChangeTeamA ""; SaveSettings; ResetCurrentGame; UndoRound]
           onboarded H).
Defined.

(** X9.  In every state reached from the default state without an import, the
    stored team names are either still the empty ones of the default state,
    with the onboarding form on screen, or they are without white space at
    either end, not empty, and different even when case is ignored, which
    on ASCII names is not being the same letters position by position; the
    scoreboard is never shown with a missing or a duplicated name. *)
Theorem names_stay_valid Number toLowerCase (evs : list Event) :
  let app := run Number toLowerCase (initialApp defaultState) evs in
  ((onboardingDone (state app) = false
    /\ teamAName (state app) = EmptyString
    /\ teamBName (state app) = EmptyString)
   \/ namesValid toLowerCase (state app))
  /\ (onboardingScreen app = false -> namesValid toLowerCase (state app))
  /\ (lowersAscii toLowerCase ->
      isAscii (teamAName (state app)) = true ->
      isAscii (teamBName (state app)) = true ->
      namesValid toLowerCase (state app) ->
      ~ equalIgnoringCase (teamAName (state app)) (teamBName (state app))).
Proof.
  intros app.
  assert (H : (onboardingDone (state app) = false
               /\ teamAName (state app) = EmptyString
               /\ teamBName (state app) = EmptyString)
              \/ namesValid toLowerCase (state app)).
  { unfold app.
    apply (run_invariant Number toLowerCase
             (fun st => (onboardingDone st = false
                         /\ teamAName st = EmptyString
                         /\ teamBName st = EmptyString)
                        \/ namesValid toLowerCase st));
      [|left; split_all; reflexivity].
    clear. intros app ev H. unfold namesValid in *.
    destruct (handle_effect Number toLowerCase app ev)
      as [E | [E | [(_ & E) | (now & x & y & _ & _ & E)]]].
    - rewrite E. exact H.
    - right. destruct E as (EA & EB & NA & NB & NL & _).
      split_all; try assumption.
      + rewrite EA. apply trim_trimmed.
      + rewrite EB. apply trim_trimmed.
    - destruct E as (E1 & E2 & E3 & _). rewrite E1, E2, E3. exact H.
    - cbv zeta in E. destruct E as (E1 & E2 & E3 & _).
      rewrite E1, E2, E3. exact H. }
  split; [exact H|]. split.
  - unfold onboardingScreen. intros Hs. apply negb_false_iff in Hs.
    destruct H as [(Hd & _) | H]; [rewrite Hd in Hs; discriminate | exact H].
  - intros HL IA IB (_ & _ & _ & _ & NL) Heq.
    apply NL. rewrite (HL _ IA), (HL _ IB).
    apply asciiLowerCase_eq_iff, Heq.
Qed.

(** X10.  Saving the configuration twice is saving it once, with either form, and
    the settings form after the onboarding form changes nothing. *)
Theorem config_save_idempotent toLowerCase (app : App) :
  state (saveOnboarding toLowerCase (saveOnboarding toLowerCase app))
  = state (saveOnboarding toLowerCase app)
  /\ state (saveSettings toLowerCase (saveSettings toLowerCase app))
     = state (saveSettings toLowerCase app)
  /\ state (saveSettings toLowerCase (saveOnboarding toLowerCase app))
     = state (saveOnboarding toLowerCase app).
Proof.
  unfold saveOnboarding, saveSettings. cbv zeta.
  destruct ((trim (teamAInput app) =? "")%string
            || (trim (teamBInput app) =? "")%string) eqn:E1.
  - cbn [setError teamAInput teamBInput state]. rewrite E1.
    split_all; reflexivity.
  - destruct (toLowerCase (trim (teamAInput app))
              =? toLowerCase (trim (teamBInput app)))%string eqn:E2.
    + cbn [setError teamAInput teamBInput state]. rewrite E1, E2.
      split_all; reflexivity.
    + cbn [setError setState setSettingsOpen teamAInput teamBInput
           doubleInput state].
      rewrite E1, E2.
      cbn [setError setState setSettingsOpen state rounds onboardingDone
           teamAName teamBName doubleFirstHand winsA winsB doubleInput].
      rewrite !kept_rounds. split_all; reflexivity.
Qed.

(** ** How the round handlers compose *)

(** X11.  Undo right after a round that was committed gives back the aggregate
    as it was before the round; right after a round that won the match it
    changes nothing: the win stays counted and the ledger stays empty. *)
Theorem undo_after_addRound Number now app x y :
  submits Number app x y ->
  let after := addRound Number now app in
  (rounds (state after) <> [] -> state (undoRound after) = state app)
  /\ (rounds (state after) = [] -> state (undoRound after) = state after)
  /\ (rounds (state after) <> [] \/ winsA (state after) + winsB (state after)
                                    = winsA (state app) + winsB (state app) + 1).
Proof.
  intros Hv after. unfold after.
  rewrite (addRound_valid Number now app x y Hv). cbv zeta.
  pose proof (not_both_won
                (sumRounds (rounds (state app)
                            ++ [nextRound (state app) now x y]))) as HAB.
  destruct (aWon _ || bWon _) eqn:Ew;
    unfold undoRound; cbn [setState state rounds onboardingDone teamAName
                           teamBName doubleFirstHand winsA winsB].
  - split_all.
    + intros H. contradiction H. reflexivity.
    + intros _. reflexivity.
    + right. destruct (aWon _), (bWon _); try discriminate; lia.
  - split_all.
    + intros _. rewrite firstn_init. destruct (state app). reflexivity.
    + intros H. apply app_eq_nil in H. destruct H as [_ H]. discriminate H.
    + left. intros H. apply app_eq_nil in H. destruct H as [_ H].
      discriminate H.
Qed.

Lemma undo_after_addRound_witness :
  submits numberOfLiteral firstHandDoubled 20 10
  /\ state (undoRound (addRound numberOfLiteral 1001 firstHandDoubled))
     = state firstHandDoubled.
Proof.
  assert (Hv : submits numberOfLiteral firstHandDoubled 20 10) by show_submits.
  split; [exact Hv|].
  apply (undo_after_addRound numberOfLiteral 1001 firstHandDoubled 20 10 Hv).
  vm_compute. discriminate.
Defined.

(** X12.  An accepted round empties the two fields, so submitting again at once
    is refused for want of points and changes nothing but the message. *)
Theorem resubmit_is_refused Number now now' app x y :
  submits Number app x y ->
  let after := addRound Number now app in
  roundA after = EmptyString /\ roundB after = EmptyString
  /\ addRound Number now' after = setError ERR_NO_POINTS after
  /\ state (addRound Number now' after) = state after.
Proof.
  intros Hv after.
  assert (E : roundA after = EmptyString /\ roundB after = EmptyString).
  { unfold after. rewrite (addRound_valid Number now app x y Hv). cbv zeta.
    destruct (aWon _ || bWon _); split; reflexivity. }
  destruct E as [EA EB].
  assert (H : addRound Number now' after = setError ERR_NO_POINTS after).
  { unfold addRound at 1. cbn [setError roundA roundB state].
    rewrite EA, EB. reflexivity. }
  split_all; try assumption. rewrite H. reflexivity.
Qed.

Lemma resubmit_is_refused_witness :
  submits numberOfLiteral aboutToWin 35 40
  /\ InvalidRound
       (addRound numberOfLiteral 1005 (addRound numberOfLiteral 1004 aboutToWin)).
Proof.
  assert (Hv : submits numberOfLiteral aboutToWin 35 40) by show_submits.
  split; [exact Hv|].
  destruct (resubmit_is_refused numberOfLiteral 1004 1005 aboutToWin 35 40 Hv)
    as (_ & _ & H & _).
  rewrite H. right. reflexivity.
Defined.

(** X13.  A refused round changes the message and nothing else: the aggregate,
    the banner and what was typed in the two fields are kept. *)
Theorem refused_round_keeps_form Number now app :
  error (addRound Number now app) <> EmptyString ->
  addRound Number now app = setError (error (addRound Number now app)) app.
Proof.
  intros H.
  destruct (addRound_cases Number now app) as [(msg & _ & E) | (x & y & Hv)].
  - rewrite E. reflexivity.
  - contradiction H. rewrite (addRound_valid Number now app x y Hv). cbv zeta.
    destruct (aWon _ || bWon _); reflexivity.
Qed.

Lemma refused_round_keeps_form_witness :
  error (addRound numberOfLiteral 1001 (setRoundA "-4" onboarded)) <> EmptyString
  /\ roundA (addRound numberOfLiteral 1001 (setRoundA "-4" onboarded)) = "-4".
Proof.
  assert (H : error (addRound numberOfLiteral 1001 (setRoundA "-4" onboarded))
              <> EmptyString) by (vm_compute; discriminate).
  split; [exact H|].
  rewrite (refused_round_keeps_form numberOfLiteral 1001
             (setRoundA "-4" onboarded) H).
  reflexivity.
Defined.

(** ** The scoreboard *)

Lemma mapWithIndex_ext {A B : Type} (f g : A -> nat -> B) (l : list A) :
  forall idx,
    (forall x i, f x i = g x i) ->
    mapWithIndex f l idx = mapWithIndex g l idx.
Proof.
  induction l as [|x l IH]; intros idx H; cbn; [reflexivity|].
  rewrite H, (IH (S idx) H). reflexivity.
Qed.

Lemma mapWithIndex_shift {A B : Type} (f : A -> nat -> B) (l : list A) :
  forall idx,
    mapWithIndex f l (S idx) = mapWithIndex (fun x i => f x (S i)) l idx.
Proof.
  induction l as [|x l IH]; intros idx; cbn; [reflexivity|].
  rewrite IH. reflexivity.
Qed.

Lemma mapWithIndex_snoc {A B : Type} (f : A -> nat -> B) (l : list A) (x : A) :
  forall idx,
    mapWithIndex f (l ++ [x]) idx
    = (mapWithIndex f l idx ++ [f x (idx + List.length l)%nat])%list.
Proof.
  induction l as [|y l IH]; intros idx; cbn [mapWithIndex List.app List.length].
  - rewrite Nat.add_0_r. reflexivity.
  - rewrite IH, Nat.add_succ_r. reflexivity.
Qed.

Lemma mapWithIndex_length {A B : Type} (f : A -> nat -> B) (l : list A) :
  forall idx, List.length (mapWithIndex f l idx) = List.length l.
Proof.
  induction l as [|x l IH]; intros idx; cbn; [reflexivity|].
  rewrite IH. reflexivity.
Qed.

Lemma mapWithIndex_nth {A B : Type} (f : A -> nat -> B) (l : list A) :
  forall idx k x,
    nth_error l k = Some x ->
    nth_error (mapWithIndex f l idx) k = Some (f x (idx + k)%nat).
Proof.
  induction l as [|y l IH]; intros idx [|k] x H; try discriminate H.
  - cbn in *. injection H as ->. rewrite Nat.add_0_r. reflexivity.
  - cbn [mapWithIndex nth_error] in *. rewrite (IH (S idx) k x H).
    rewrite Nat.add_succ_r. reflexivity.
Qed.

Lemma history_of_ledger (rs : list Round) :
  mapWithIndex
    (fun round idx =>
       historyRow round (Z.of_nat (List.length rs) - Z.of_nat idx))
    (List.rev rs) 0
  = List.rev (mapWithIndex (fun round i => historyRow round (Z.of_nat i + 1))
                rs 0).
Proof.
  induction rs as [|x rs IH] using rev_ind; [reflexivity|].
  rewrite rev_app_distr, mapWithIndex_snoc, rev_app_distr. cbn [List.rev List.app].
  cbn [mapWithIndex]. rewrite mapWithIndex_shift. f_equal.
  - f_equal. rewrite length_app. cbn [List.length]. lia.
  - rewrite <- IH. apply mapWithIndex_ext. intros r i.
    f_equal. rewrite length_app. cbn [List.length]. lia.
Qed.

(** X15.  The history lists the ledger newest round first, one line per round,
    and the number in front of a line is the position of its round in the
    ledger, counted from 1: the round at index k is on line n - 1 - k under
    the number k + 1, with its applied scores and its [x2] badge. *)
Theorem history_numbers_rounds (app : App) :
  let rs := rounds (state app) in
  let n := List.length rs in
  List.length (historyRows app) = n
  /\ historyRows app
     = List.rev (mapWithIndex
                   (fun round i => historyRow round (Z.of_nat i + 1)) rs 0)
  /\ (forall k r,
        nth_error rs k = Some r ->
        nth_error (historyRows app) (n - 1 - k)
        = Some (historyRow r (Z.of_nat k + 1)))
  /\ map actualIdx (historyRows app)
     = List.rev (map (fun i => Z.of_nat i + 1) (seq 0 n)).
Proof.
  intros rs n. unfold historyRows. fold rs. rewrite history_of_ledger.
  split_all.
  - rewrite length_rev. apply mapWithIndex_length.
  - reflexivity.
  - intros k r Hk.
    assert (Hlt : (k < n)%nat) by (apply nth_error_Some; rewrite Hk; discriminate).
    rewrite nth_error_rev.
    rewrite mapWithIndex_length. fold n.
    destruct (n - 1 - k <? n)%nat eqn:E; [|apply Nat.ltb_ge in E; lia].
    replace (n - S (n - 1 - k))%nat with k by lia.
    rewrite (mapWithIndex_nth _ rs 0%nat k r Hk). reflexivity.
  - rewrite map_rev. f_equal. unfold n. clear.
    assert (G : forall (l : list Round) idx,
              map actualIdx
                (mapWithIndex (fun round i => historyRow round (Z.of_nat i + 1))
                   l idx)
              = map (fun i => Z.of_nat i + 1) (seq idx (List.length l))).
    { induction l as [|x l IH]; intros idx; cbn; [reflexivity|].
      rewrite IH. reflexivity. }
    apply G.
Qed.

Lemma mapWithIndex_In {A B : Type} (f : A -> nat -> B) (l : list A) (y : B) :
  forall idx,
    In y (mapWithIndex f l idx) ->
    exists k x, nth_error l k = Some x /\ y = f x (idx + k)%nat.
Proof.
  induction l as [|x l IH]; intros idx H; cbn in H; [contradiction|].
  destruct H as [H | H].
  - exists 0%nat, x. rewrite Nat.add_0_r. split; [reflexivity | congruence].
  - destruct (IH (S idx) H) as (k & x' & Hk & Hy).
    exists (S k), x'. split; [exact Hk|]. rewrite Hy, Nat.add_succ_r. reflexivity.
Qed.

(** X16.  In every state reached from the default state without an import, the
    badge [x2] is shown at most on the line numbered 1, the oldest round of
    the match. *)
Theorem history_badge_on_first_round Number toLowerCase (evs : list Event) :
  let app := run Number toLowerCase (initialApp defaultState) evs in
  forall row, In row (historyRows app) -> x2 row = true -> actualIdx row = 1.
Proof.
  intros app row Hin Hx.
  assert (Hd : doubledOnlyFirst (rounds (state app))).
  { apply run_doubledOnlyFirst. constructor. }
  unfold historyRows in Hin. rewrite history_of_ledger in Hin.
  apply in_rev in Hin.
  apply mapWithIndex_In in Hin. destruct Hin as (k & r & Hk & ->).
  cbn [x2 historyRow actualIdx] in *.
  destruct k as [|k]; [reflexivity|]. exfalso.
  unfold doubledOnlyFirst in Hd.
  destruct (rounds (state app)) as [|r0 rs]; [discriminate Hk|].
  cbn in Hk, Hd. apply nth_error_In in Hk.
  rewrite Forall_forall in Hd. rewrite (Hd r Hk) in Hx. discriminate Hx.
Qed.

Lemma history_badge_on_first_round_witness :
  In (historyRow (mkRound 1001 20 10 40 20 true) 1)
    (historyRows
       (run numberOfLiteral asciiLowerCase (initialApp defaultState)
          [ChangeTeamA "Rojos"; ChangeTeamB "Azules"; ChangeDouble true;
           SaveOnboarding; ChangeRoundA "20"; ChangeRoundB "10"; AddRound 1001;
           ChangeRoundA "10"; ChangeRoundB "10"; AddRound 1002]))
  /\ actualIdx (historyRow (mkRound 1001 20 10 40 20 true) 1) = 1.
Proof.
  assert (H : In (historyRow (mkRound 1001 20 10 40 20 true) 1)
                (historyRows
                   (run numberOfLiteral asciiLowerCase (initialApp defaultState)
                      [ChangeTeamA "Rojos"; ChangeTeamB "Azules";
                       ChangeDouble true; SaveOnboarding;
                       ChangeRoundA "20"; ChangeRoundB "10"; AddRound 1001;
                       ChangeRoundA "10"; ChangeRoundB "10"; AddRound 1002])))
    by (vm_compute; right; left; reflexivity).
  split; [exact H|].
  apply (history_badge_on_first_round numberOfLiteral asciiLowerCase _ _ H). reflexivity.
Defined.

(** X17.  The undo button is disabled exactly when undo would change nothing,
    which is when no history is shown; when it is enabled, undo removes one
    round. *)
Theorem undo_button (app : App) :
  (undoDisabled app = true <-> undoRound app = app)
  /\ historyVisible app = negb (undoDisabled app)
  /\ (undoDisabled app = false ->
      S (List.length (rounds (state (undoRound app))))
      = List.length (rounds (state app))).
Proof.
  unfold undoDisabled, historyVisible, undoRound.
  destruct app as [[od ta tb df rs wa wb] tai tbi di ra rb er wbn so].
  cbn [setState state rounds onboardingDone teamAName teamBName
       doubleFirstHand winsA winsB teamAInput teamBInput doubleInput roundA
       roundB error winnerBanner settingsOpen].
  split_all.
  - split.
    + intros H. apply Nat.eqb_eq, length_zero_iff_nil in H. subst rs.
      reflexivity.
    + intros H. injection H as H. apply (f_equal (@List.length Round)) in H.
      rewrite length_firstn in H. apply Nat.eqb_eq. lia.
  - destruct rs; reflexivity.
  - intros H. apply Nat.eqb_neq in H. rewrite length_firstn. lia.
Qed.

(** X18.  After a reset the scoreboard is that of a match not yet started:
    totals 0 to 0, no leader, no history, undo disabled, banner cleared, the
    win counters as they were and the next round the first of its match;
    resetting or undoing again changes nothing, and an undo before the reset
    makes no difference. *)
Theorem reset_scoreboard (app : App) :
  let after := resetCurrentGame app in
  totals after = {| a := 0; b := 0 |}
  /\ leadingTeam after = None
  /\ historyRows after = []
  /\ undoDisabled after = true
  /\ winnerBanner after = EmptyString
  /\ winsA (state after) = winsA (state app)
  /\ winsB (state after) = winsB (state app)
  /\ isDoubleNow (state after) = doubleFirstHand (state app)
  /\ resetCurrentGame after = after
  /\ undoRound after = after
  /\ state (resetCurrentGame (undoRound app)) = state after.
Proof.
  intros after. unfold after, resetCurrentGame. split_all; try reflexivity.
  cbn. apply andb_true_r.
Qed.

(** X14.  The totals shown are the sums of the applied scores of the ledger, and
    a committed round adds its applied scores, doubled ones for a doubled
    round, to them.  This is for the safe integers, where the sums of the
    doubles are the sums of the integers: the scores of the new ledger and
    every total on the way to its totals. *)
Theorem totals_after_round Number now app x y :
  submits Number app x y ->
  exactTotals (rounds (state app) ++ [nextRound (state app) now x y]) ->
  let after := addRound Number now app in
  totals app = {| a := totalA (rounds (state app));
                  b := totalB (rounds (state app)) |}
  /\ (rounds (state after) <> [] ->
      a (totals after)
      = a (totals app) + (if isDoubleNow (state app) then x * 2 else x)
      /\ b (totals after)
         = b (totals app) + (if isDoubleNow (state app) then y * 2 else y))
  /\ (rounds (state after) = [] -> totals after = {| a := 0; b := 0 |}).
Proof.
  intros Hv _ after. unfold totals.
  split; [apply sumRounds_totals|].
  unfold after. rewrite (addRound_valid Number now app x y Hv). cbv zeta.
  destruct (aWon _ || bWon _); cbn [state rounds].
  - split; [intros H; contradiction H; reflexivity | reflexivity].
  - split.
    + intros _. rewrite !sumRounds_totals. cbn [a b].
      unfold totalA, totalB. rewrite !map_app, !fold_right_app.
      cbn [map fold_right nextRound appliedA appliedB].
      assert (G : forall (l : list Z) (z : Z),
                fold_right Z.add z l = fold_right Z.add 0 l + z).
      { induction l as [|h l IH]; intros z; cbn [fold_right]; [lia|].
        rewrite IH. lia. }
      rewrite (G _ (_ + 0)), (G (map appliedB _) (_ + 0)). lia.
    + intros H. apply app_eq_nil in H. destruct H as [_ H]. discriminate H.
Qed.

Lemma totals_after_round_witness :
  submits numberOfLiteral firstHandDoubled 20 10
  /\ exactTotals (rounds (state firstHandDoubled)
                  ++ [nextRound (state firstHandDoubled) 1001 20 10])
  /\ a (totals (addRound numberOfLiteral 1001 firstHandDoubled)) = 40
  /\ b (totals (addRound numberOfLiteral 1001 firstHandDoubled)) = 20.
Proof.
  assert (Hv : submits numberOfLiteral firstHandDoubled 20 10) by show_submits.
  assert (Ht : exactTotals (rounds (state firstHandDoubled)
                            ++ [nextRound (state firstHandDoubled) 1001 20 10]))
    by (vm_compute; reflexivity).
  split; [exact Hv|]. split; [exact Ht|].
  destruct (totals_after_round numberOfLiteral 1001 firstHandDoubled 20 10 Hv Ht)
    as (_ & H & _).
  apply H. vm_compute. discriminate.
Defined.

(** ** Loading, saving and importing *)

(** X2.  What the component starts from is the default aggregate, unless the
    storage slot holds a text that is not empty, parses, and passes
    [isValidState]; only then is the stored value taken. *)
Theorem loadInitialState_cases JSON_parse (hasWindow : bool)
    (item : option string) :
  loadInitialState JSON_parse hasWindow item = Some defaultState
  \/ exists raw parsed,
       hasWindow = true /\ item = Some raw /\ raw <> EmptyString
       /\ JSON_parse raw = Some parsed
       /\ isValidState parsed = true
       /\ loadInitialState JSON_parse hasWindow item = asPersistedState parsed.
Proof.
  unfold loadInitialState.
  destruct hasWindow; [|left; reflexivity]. cbn [negb].
  destruct item as [raw|]; [|left; reflexivity].
  destruct (raw =? "")%string eqn:Er; [left; reflexivity|].
  destruct (JSON_parse raw) as [parsed|] eqn:Ep; [|left; reflexivity].
  destruct (isValidState parsed) eqn:Ev; [|left; reflexivity].
  right. exists raw, parsed. apply String.eqb_neq in Er.
  split_all; auto.
Qed.


(** X3.  What the persistence effect writes after a change is what the next
    start of the component loads, and the forms then show the stored
    configuration: provided [JSON.parse] reads back the value
    [JSON.stringify] printed and the printed text is not empty. *)
Theorem persisted_reloads JSON_parse JSON_stringify (app : App) :
  JSON_parse (JSON_stringify (toValue (state app)) 0%nat)
    = Some (toValue (state app)) ->
  JSON_stringify (toValue (state app)) 0%nat <> EmptyString ->
  loadInitialState JSON_parse true (Some (persisted JSON_stringify app))
    = Some (state app)
  /\ initialApp (state app)
     = {| state := state app;
          teamAInput := teamAName (state app);
          teamBInput := teamBName (state app);
          doubleInput := doubleFirstHand (state app);
          roundA := EmptyString; roundB := EmptyString;
          error := EmptyString; winnerBanner := EmptyString;
          settingsOpen := false |}.
Proof.
  intros Hp Hne. split; [|reflexivity].
  unfold loadInitialState, persisted. cbn [negb].
  apply String.eqb_neq in Hne. rewrite Hne, Hp.
  rewrite isValidState_toValue. apply asPersistedState_toValue.
Qed.

Lemma persisted_reloads_witness :
  readJSON (printJSON (toValue (state midMatch)) 0) = Some (toValue (state midMatch))
  /\ printJSON (toValue (state midMatch)) 0 <> EmptyString
  /\ loadInitialState readJSON true (Some (persisted printJSON midMatch))
     = Some (state midMatch).
Proof.
  assert (H1 : readJSON (printJSON (toValue (state midMatch)) 0)
               = Some (toValue (state midMatch))) by (vm_compute; reflexivity).
  assert (H2 : printJSON (toValue (state midMatch)) 0 <> EmptyString)
    by (vm_compute; discriminate).
  split; [exact H1|]. split; [exact H2|].
  apply (persisted_reloads readJSON printJSON midMatch H1 H2).
Defined.
